(** * Envoy server core: InitManagerImpl and InstanceImpl (source/server/server.cc)

    A shallow embedding of the initialization barrier and of the server
    lifecycle orchestrator.  Stateful C++ member functions become commands of
    a small state-and-halt monad over a world made of the object's fields and
    the trace of calls made on external collaborators. *)

From Stdlib Require Import ZArith NArith Lia String Ascii.
From stdpp Require Import base list gmap strings sorting.

Open Scope string_scope.
Open Scope list_scope.

(** ** Ways a command can stop without returning *)

Inductive Exception :=
| EnvoyException (what : string)
| CreateListenerException (what : string).

Inductive Stop :=
| Thrown (e : Exception)      (* a C++ exception propagating outwards *)
| AssertFailure               (* ASSERT(...) failed in a debug build *)
| InvalidIterator             (* use of an iterator whose node was erased *)
| NullDereference             (* -> on an empty unique_ptr *)
| BadFunctionCall             (* call of an empty std::function *)
| ProcessExit (code : Z)      (* exit(code) *)
| OutOfFuel.                  (* artefact of bounding a loop in the model *)

Inductive Outcome (A : Type) :=
| Ok (a : A)
| Halt (why : Stop).
Arguments Ok {A} a.
Arguments Halt {A} why.

(** ** The command monad: state, trace, and halting *)

Section Command.
Context {St Ev : Type}.

Record World := mkWorld { obj : St; out : list Ev }.

Definition M (A : Type) : Type := World -> Outcome A * World.

Definition ret {A} (a : A) : M A := fun w => (Ok a, w).

Definition bind {A B} (m : M A) (k : A -> M B) : M B :=
  fun w => match m w with
           | (Ok a, w') => k a w'
           | (Halt why, w') => (Halt why, w')
           end.

Definition halt {A} (why : Stop) : M A := fun w => (Halt why, w).

Definition get : M St := fun w => (Ok (obj w), w).

Definition modify (f : St -> St) : M unit :=
  fun w => (Ok tt, mkWorld (f (obj w)) (out w)).

Definition emit (e : Ev) : M unit :=
  fun w => (Ok tt, mkWorld (obj w) (out w ++ [e])).

(** [ASSERT] is compiled out when NDEBUG is defined. *)
Definition ASSERT (ndebug : bool) (cond : bool) : M unit :=
  if ndebug || cond then ret tt else halt AssertFailure.

(** try { body } catch (const E& e) { handler e }, where [sel] picks the
    exceptions of class E.  Effects of [body] before the throw persist. *)
Definition try_catch {A} (body : M A) (sel : Exception -> bool)
    (handler : Exception -> M A) : M A :=
  fun w => match body w with
           | (Halt (Thrown e), w') =>
               if sel e then handler e w' else (Halt (Thrown e), w')
           | r => r
           end.

(** for (const auto& x : xs) { body x } over a container the body does not
    modify. *)
Fixpoint for_each {A} (xs : list A) (body : A -> M unit) : M unit :=
  match xs with
  | [] => ret tt
  | x :: xs' => bind (body x) (fun _ => for_each xs' body)
  end.
End Command.

Arguments World : clear implicits.
Arguments M : clear implicits.
Arguments mkWorld {St Ev} obj out.

Notation "'let*' x := c1 'in' c2" := (bind c1 (fun x => c2))
  (at level 10, x name, c1 at level 100, c2 at level 200).
Notation "c1 >> c2" := (bind c1 (fun _ => c2))
  (at level 100, c2 at level 200, right associativity).

(** ** std::list with node identity

    [std::list<T>] keeps every element in its own node; an iterator is a
    reference to a node and stays valid until that node is erased.  The list
    is a sequence of (node, value) pairs; the past-the-end iterator refers to
    the sentinel, which is never erased. *)

Module StdList.
Definition Node := nat.

Inductive Iterator :=
| At (n : Node)
| End.

Abbreviation std_list T := (list (Node * T)).

Section Ops.
Context {T : Type} `{EqDecision T}.
Local Abbreviation t := (std_list T).

Definition empty (l : t) : bool :=
  match l with [] => true | _ => false end.

Definition begin_ (l : t) : Iterator :=
  match l with
  | [] => End
  | (n, _) :: _ => At n
  end.

(** [*it]: [None] when the node is no longer part of the list. *)
Fixpoint deref (l : t) (n : Node) : option T :=
  match l with
  | [] => None
  | (m, x) :: l' => if decide (m = n) then Some x else deref l' n
  end.

(** [++it]: [None] when the node is no longer part of the list. *)
Fixpoint next (l : t) (n : Node) : option Iterator :=
  match l with
  | [] => None
  | (m, _) :: l' => if decide (m = n) then Some (begin_ l') else next l' n
  end.

Definition push_back (fresh : Node) (x : T) (l : t) : t := l ++ [(fresh, x)].

(** [l.remove(x)] erases every node whose value equals [x]. *)
Definition remove (x : T) (l : t) : t :=
  filter (fun p => p.2 ≠ x) l.

(** [std::find(l.begin(), l.end(), x) != l.end()] *)
Definition contains (x : T) (l : t) : bool := bool_decide (x ∈ l.*2).
End Ops.
End StdList.

(** ** InitManagerImpl *)

Module InitManager.

(** [Init::Target*]: a registered target is known by its address. *)
Definition Target := nat.
(** A [std::function<void()>] continuation, known by a tag. *)
Definition Callback := nat.

Inductive State := NotInitialized | Initializing | Initialized.

#[global] Instance State_eq_dec : EqDecision State.
Proof. solve_decision. Defined.

Inductive Event :=
| TargetInitialize (t : Target)           (* target->initialize(cb) is called *)
| TargetCompleted (t : Target)            (* the target calls its cb *)
| Invoked (cb : Callback) (seen : State). (* a continuation runs; [seen] is the
                                             manager's state_ at that moment *)

Record InitManagerImpl := mkInitManager {
  state_ : State;
  targets_ : StdList.std_list Target;
  fresh_ : StdList.Node;       (* next node the allocator hands out *)
  callback_ : option Callback  (* empty std::function until initialize *)
}.

Definition set_state (s : State) (m : InitManagerImpl) : InitManagerImpl :=
  mkInitManager s (targets_ m) (fresh_ m) (callback_ m).
Definition set_targets (l : StdList.std_list Target) (m : InitManagerImpl) : InitManagerImpl :=
  mkInitManager (state_ m) l (fresh_ m) (callback_ m).
Definition set_callback (cb : Callback) (m : InitManagerImpl) : InitManagerImpl :=
  mkInitManager (state_ m) (targets_ m) (fresh_ m) (Some cb).

(** A freshly constructed manager. *)
Definition new_manager : InitManagerImpl := mkInitManager NotInitialized [] 0 None.

Definition Cmd := M InitManagerImpl Event.

Section Code.
(** Build flavour: [true] when ASSERT is compiled out. *)
Variable NDEBUG : bool.
(** How a target's [initialize] behaves: [true] when it calls the
    completion callback before returning, [false] when it keeps the
    callback and calls it later from the event loop. *)
Variable synchronous : Target -> bool.

(** Calling a [std::function]; the continuation observes [state_]. *)
Definition invoke (f : option Callback) : Cmd unit :=
  match f with
  | None => halt BadFunctionCall
  | Some cb => let* m := get in emit (Invoked cb (state_ m))
  end.

(** void InitManagerImpl::registerTarget(Init::Target& target) *)
Definition registerTarget (target : Target) : Cmd unit :=
  let* m := get in
  ASSERT NDEBUG (bool_decide (state_ m = NotInitialized)) >>
  modify (fun m => mkInitManager (state_ m)
                     (StdList.push_back (fresh_ m) target (targets_ m))
                     (S (fresh_ m)) (callback_ m)).

(** The lambda [this, target]() handed to [target->initialize]. *)
Definition target_callback (target : Target) : Cmd unit :=
  emit (TargetCompleted target) >>
  let* m := get in
  ASSERT NDEBUG (StdList.contains target (targets_ m)) >>
  modify (fun m => set_targets (StdList.remove target (targets_ m)) m) >>
  let* m := get in
  if StdList.empty (targets_ m) then
    modify (set_state Initialized) >>
    let* m := get in
    invoke (callback_ m)
  else ret tt.

(** [target->initialize(cb)] as seen from the manager. *)
Definition target_initialize (target : Target) : Cmd unit :=
  emit (TargetInitialize target) >>
  if synchronous target then target_callback target else ret tt.

(** for (auto target : targets_) { target->initialize(...); }
    written out with its iterator: the loop reads [*it], runs the body,
    then advances [it] on whatever [targets_] is by then. *)
Fixpoint initialize_loop (fuel : nat) (it : StdList.Iterator) : Cmd unit :=
  match it with
  | StdList.End => ret tt
  | StdList.At n =>
      match fuel with
      | 0 => halt OutOfFuel
      | S fuel' =>
          let* m := get in
          match StdList.deref (targets_ m) n with
          | None => halt InvalidIterator
          | Some target =>
              target_initialize target >>
              let* m' := get in
              match StdList.next (targets_ m') n with
              | None => halt InvalidIterator
              | Some it' => initialize_loop fuel' it'
              end
          end
      end
  end.

(** void InitManagerImpl::initialize(std::function<void()> callback) *)
Definition initialize (callback : Callback) : Cmd unit :=
  let* m := get in
  ASSERT NDEBUG (bool_decide (state_ m = NotInitialized)) >>
  if StdList.empty (targets_ m) then
    invoke (Some callback) >>
    modify (set_state Initialized)
  else
    modify (set_callback callback) >>
    modify (set_state Initializing) >>
    let* m := get in
    initialize_loop (length (targets_ m)) (StdList.begin_ (targets_ m)).

(** A legal start-up: the registrations, then one [initialize]. *)
Definition register_all (ts : list Target) : Cmd unit :=
  for_each ts registerTarget.

(** The event loop later delivers the completions of [cs], in that order. *)
Definition complete_all (cs : list Target) : Cmd unit :=
  for_each cs target_callback.

Definition barrier (ts : list Target) (done : Callback) (cs : list Target) : Cmd unit :=
  register_all ts >> initialize done >> complete_all cs.
End Code.

Definition start : World InitManagerImpl Event := mkWorld new_manager [].

(** How many times the continuation [cb] ran in a trace. *)
Definition is_invocation (cb : Callback) (e : Event) : bool :=
  match e with
  | Invoked cb' _ => bool_decide (cb' = cb)
  | _ => false
  end.

Definition invocations (cb : Callback) (tr : list Event) : nat :=
  length (List.filter (is_invocation cb) tr).

(** The nodes [push_back] allocates for [ts] when the allocator stands at [k]. *)
Definition nodes_for (k : StdList.Node) (ts : list Target) : StdList.std_list Target :=
  zip (seq k (length ts)) ts.

End InitManager.

(** ** InstanceImpl *)

Module Server.
Local Open Scope Z_scope.

(** *** Collaborators and configuration *)

(** [WorkerPtr]: workers are known by the order of their construction. *)
Definition Worker := nat.
(** [Configuration::Listener*]: a listener configuration is known by its
    address in memory; [socket_map_] is keyed by it. *)
Definition ListenerPtr := nat.

Inductive AddressType := Ip | Pipe.

#[global] Instance AddressType_eq_dec : EqDecision AddressType.
Proof. solve_decision. Defined.

Record Address := mkAddress {
  type : AddressType;
  asString : string
}.

Record Listener := mkListener {
  get_ : ListenerPtr;          (* listener.get() *)
  address : Address;
  bindToPort : bool
}.

Inductive ListenSocket :=
| TcpListenSocketFd (fd : Z) (addr : Address)           (* TcpListenSocket(fd, address) *)
| TcpListenSocketBind (addr : Address) (bind : bool).   (* TcpListenSocket(address, bind_to_port) *)

Inductive Sink :=
| UdpStatsdSink (udp_address : string)
| UdpStatsdSinkLocalPort (port : Z)
| TcpStatsdSink (cluster : string).

Record InitialConfig := mkInitialConfig {
  flagsPath : option string
}.

Record MainConfig := mkMainConfig {
  listeners : list Listener;
  statsdUdpIpAddress : option string;
  statsdUdpPort : option Z;
  statsdTcpClusterName : option string;
  statsFlushInterval : Z
}.

(** What [MainImpl] holds between its construction and its [initialize]. *)
Definition blank_config : MainConfig := mkMainConfig [] None None None 0.

Record Counter := mkCounter {
  counter_name : string;
  counter_latch : Z;           (* what latch() returns *)
  counter_used : bool
}.

Record Gauge := mkGauge {
  gauge_name : string;
  gauge_value : Z;
  gauge_used : bool
}.

(** The answers of everything outside the server object. *)
Record Env := mkEnv {
  revision : string;                             (* VersionInfo::revision() *)
  concurrency : N;                               (* options.concurrency(), uint32_t *)
  load_initial : option InitialConfig;           (* None: loading throws EnvoyException *)
  load_main : option MainConfig;                 (* None: MainImpl::initialize throws *)
  parent_start_time : option Z;                  (* what shutdownParentAdmin reports *)
  start_time : Z;                                (* time(nullptr) at construction *)
  flush_time : Z;                                (* time(nullptr) when stats are flushed *)
  fileExists : string -> bool;
  duplicateParentListenSocket : string -> Z;     (* fd, or -1 *)
  worker_listens : Worker -> bool;               (* false: CreateListenerException *)
  worker_connections : Worker -> option Z;       (* None: the worker has no handler yet *)
  parent_memory_allocated : Z;
  parent_num_connections : Z;
  memory_allocated : Z;
  memory_reserved : Z;
  days_until_first_cert_expires : Z;
  store_counters : list Counter;                 (* stats_store_.counters() *)
  store_gauges : list Gauge                      (* stats_store_.gauges() *)
}.

Inductive Level := debug | info | warn | critical.
Inductive Signal := SIGTERM | SIGUSR1 | SIGHUP.
Inductive RunType := Block | NonBlock.

(** Calls on collaborators, in the order they are made. *)
Inductive Event :=
| Log (l : Level) (msg : string)
| LogFlush
| RestarterInitialize
| RestarterShutdownParentAdmin
| RestarterDuplicateParentListenSocket (addr : string)
| RestarterGetParentStats
| RestarterDrainParentListeners
| RestarterTerminateParent
| CreateDrainManager
| DrainManagerStartDrainSequence
| DrainManagerStartParentShutdownSequence
| NewAdmin
| AdminSocketClose
| HandlerAddListener
| HandlerCloseListeners
| HandlerCloseConnections
| NewWorker (w : Worker)
| WorkerInitializeConfiguration (w : Worker)
| WorkerPostCloseListeners (w : Worker)
| WorkerExit (w : Worker)
| ThreadLocalRegisterThread
| ThreadLocalShutdownThread
| StatsInitializeThreading
| StatsShutdownThreading
| StatsAddSink (s : Sink)
| CreateRuntime
| NewSslContextManager
| NewClusterManagerFactory
| ListenForSignal (sig : Signal)
| CreateTimer
| EnableTimer (interval : Z)
| NewGuardDog
| GuardDogCreateWatchDog
| WatchDogStart
| GuardDogStopWatching
| ClusterManagerSetInitializedCb
| ClusterManagerShutdown
| DispatcherRun (how : RunType)
| DispatcherExit
| SinkFlushCounter (s : Sink) (name : string) (delta : Z)
| SinkFlushGauge (s : Sink) (name : string) (value : Z)
| Kill (sig : Signal)                    (* kill(getpid(), sig) *)
| HooksOnServerInitialized.

Inductive Timer := StatFlushTimer.

(** *** The object *)

Record InstanceImpl := mkInstance {
  original_start_time_ : Z;
  server_stats_ : gmap string Z;                       (* the gauges under "server." *)
  workers_ : list Worker;
  socket_map_ : gmap ListenerPtr (option ListenSocket); (* values are unique_ptrs *)
  config_ : option MainConfig;
  stat_sinks_ : list Sink;
  stat_flush_timer_ : option Timer
}.

Definition set_original_start_time (v : Z) (s : InstanceImpl) :=
  mkInstance v (server_stats_ s) (workers_ s) (socket_map_ s) (config_ s)
    (stat_sinks_ s) (stat_flush_timer_ s).
Definition set_server_stats (v : gmap string Z) (s : InstanceImpl) :=
  mkInstance (original_start_time_ s) v (workers_ s) (socket_map_ s) (config_ s)
    (stat_sinks_ s) (stat_flush_timer_ s).
Definition set_workers (v : list Worker) (s : InstanceImpl) :=
  mkInstance (original_start_time_ s) (server_stats_ s) v (socket_map_ s) (config_ s)
    (stat_sinks_ s) (stat_flush_timer_ s).
Definition set_socket_map (v : gmap ListenerPtr (option ListenSocket)) (s : InstanceImpl) :=
  mkInstance (original_start_time_ s) (server_stats_ s) (workers_ s) v (config_ s)
    (stat_sinks_ s) (stat_flush_timer_ s).
Definition set_config (v : option MainConfig) (s : InstanceImpl) :=
  mkInstance (original_start_time_ s) (server_stats_ s) (workers_ s) (socket_map_ s) v
    (stat_sinks_ s) (stat_flush_timer_ s).
Definition set_stat_sinks (v : list Sink) (s : InstanceImpl) :=
  mkInstance (original_start_time_ s) (server_stats_ s) (workers_ s) (socket_map_ s)
    (config_ s) v (stat_flush_timer_ s).
Definition set_stat_flush_timer (v : option Timer) (s : InstanceImpl) :=
  mkInstance (original_start_time_ s) (server_stats_ s) (workers_ s) (socket_map_ s)
    (config_ s) (stat_sinks_ s) v.

Definition Cmd := M InstanceImpl Event.

(** Gauges hold a uint64_t. *)
Definition uint64 (z : Z) : Z := z mod 2 ^ 64.

(** [server_stats_.<name>_.set(v)] and [.value()]; a gauge never set reads 0. *)
Definition gauge_set (name : string) (v : Z) : Cmd unit :=
  modify (fun s => set_server_stats (<[name := uint64 v]> (server_stats_ s)) s).
Definition gauge (name : string) (s : InstanceImpl) : Z :=
  default 0 (server_stats_ s !! name).

(** Modelled from the spec: [StringUtil::atoul(str, out, 16)], whose source
    (common/common/utility.cc) is not at hand.  The spec has the first
    characters of the build SHA parsed as a hexadecimal number, an SHA that
    does not parse being fatal: a non-empty string of hexadecimal digits
    yields its value, anything else is rejected. *)
Definition hex_digit (c : ascii) : option Z :=
  let n := Z.of_nat (nat_of_ascii c) in
  if (48 <=? n) && (n <=? 57) then Some (n - 48)
  else if (97 <=? n) && (n <=? 102) then Some (n - 87)
  else if (65 <=? n) && (n <=? 70) then Some (n - 55)
  else None.

Fixpoint hex_value (acc : Z) (s : string) : option Z :=
  match s with
  | EmptyString => Some acc
  | String c s' =>
      match hex_digit c with
      | Some d => hex_value (acc * 16 + d) s'
      | None => None
      end
  end.

Definition atoul (s : string) : option Z :=
  match s with
  | EmptyString => None
  | _ => match hex_value 0 s with
         | Some v => if v <? 2 ^ 64 then Some v else None
         | None => None
         end
  end.

Definition is_EnvoyException (e : Exception) : bool :=
  match e with EnvoyException _ => true | _ => false end.
Definition is_CreateListenerException (e : Exception) : bool :=
  match e with CreateListenerException _ => true | _ => false end.

(** [p->...] on a unique_ptr. *)
Definition deref {A} (p : option A) : Cmd A :=
  match p with
  | Some a => ret a
  | None => halt NullDereference
  end.

Section Code.
Variable NDEBUG : bool.
Variable env : Env.

(** void InstanceImpl::failHealthcheck(bool fail) *)
Definition failHealthcheck (fail : bool) : Cmd unit :=
  gauge_set "server.live" (if negb fail then 1 else 0).

(** bool InstanceImpl::healthCheckFailed() *)
Definition healthCheckFailed (s : InstanceImpl) : bool :=
  bool_decide (gauge "server.live" s = 0).

(** uint64_t InstanceImpl::numConnections() *)
Definition numConnections (s : InstanceImpl) : Z :=
  foldl (fun num_connections worker =>
           match worker_connections env worker with
           | Some n => uint64 (num_connections + n)
           | None => num_connections
           end) 0 (workers_ s).

(** void InstanceImpl::shutdown() *)
Definition shutdown : Cmd unit :=
  emit (Log warn "shutdown invoked. sending SIGTERM to self") >>
  emit (Kill SIGTERM).


(** void InstanceImpl::flushStats() *)
Definition flushStats : Cmd unit :=
  emit (Log debug "flushing stats") >>
  emit RestarterGetParentStats >>
  (let* s := get in
   gauge_set "server.uptime" (flush_time env - original_start_time_ s)) >>
  gauge_set "server.memory_allocated" (memory_allocated env + parent_memory_allocated env) >>
  gauge_set "server.memory_heap_size" (memory_reserved env) >>
  gauge_set "server.parent_connections" (parent_num_connections env) >>
  (let* s := get in
   gauge_set "server.total_connections" (numConnections s + parent_num_connections env)) >>
  gauge_set "server.days_until_first_cert_expiring" (days_until_first_cert_expires env) >>
  for_each (store_counters env) (fun counter =>
    let delta := counter_latch counter in
    if counter_used counter then
      let* s := get in
      for_each (stat_sinks_ s) (fun sink =>
        emit (SinkFlushCounter sink (counter_name counter) delta))
    else ret tt) >>
  for_each (store_gauges env) (fun g =>
    if gauge_used g then
      let* s := get in
      for_each (stat_sinks_ s) (fun sink =>
        emit (SinkFlushGauge sink (gauge_name g) (gauge_value g)))
    else ret tt) >>
  let* s := get in
  let* _ := deref (stat_flush_timer_ s) in
  let* config := deref (config_ s) in
  emit (EnableTimer (statsFlushInterval config)).

(** Network::ListenSocket* InstanceImpl::getListenSocketByIndex(uint32_t index)
    [socket_map_[key]] inserts an empty pointer when the key is absent. *)
Definition getListenSocketByIndex (index : N) : Cmd (option ListenSocket) :=
  let* s := get in
  let* config := deref (config_ s) in
  if (index <? N.of_nat (length (listeners config)))%N then
    match listeners config !! N.to_nat index with
    | None => halt InvalidIterator
    | Some it =>
        match socket_map_ s !! get_ it with
        | Some socket => ret socket
        | None =>
            modify (fun s => set_socket_map (<[get_ it := None]> (socket_map_ s)) s) >>
            ret None
        end
    end
  else ret None.

(** void InstanceImpl::loadServerFlags(const Optional<std::string>& flags_path) *)
Definition loadServerFlags (flags_path : option string) : Cmd unit :=
  match flags_path with
  | None => ret tt
  | Some path =>
      emit (Log info "server flags path: {}") >>
      if fileExists env (String.append path "/drain") then
        emit (Log warn "starting server in drain mode") >>
        failHealthcheck true
      else ret tt
  end.

(** void InstanceImpl::initializeStatSinks() *)
Definition add_sink (sink : Sink) : Cmd unit :=
  modify (fun s => set_stat_sinks (stat_sinks_ s ++ [sink]) s) >>
  emit (StatsAddSink sink).

Definition initializeStatSinks : Cmd unit :=
  let* s := get in
  let* config := deref (config_ s) in
  match statsdUdpIpAddress config, statsdUdpPort config with
  | Some ip, _ =>
      emit (Log info "statsd UDP ip address: {}") >>
      add_sink (UdpStatsdSink ip)
  | None, Some port =>
      emit (Log warn "statsd_local_udp_port has been DEPRECATED and will be removed in 1.4.0. Consider setting statsd_udp_ip_address instead.") >>
      emit (Log info "statsd UDP port: {}") >>
      add_sink (UdpStatsdSinkLocalPort port)
  | None, None => ret tt
  end >>
  match statsdTcpClusterName config with
  | Some cluster =>
      emit (Log info "statsd TCP cluster: {}") >>
      add_sink (TcpStatsdSink cluster)
  | None => ret tt
  end.

(** The socket the loop of [initialize] stores for one listener. *)
Definition listen_socket (listener : Listener) : Cmd unit :=
  ASSERT NDEBUG (bool_decide (type (address listener) = Ip)) >>
  let addr := String.append "tcp://" (asString (address listener)) in
  emit (RestarterDuplicateParentListenSocket addr) >>
  let fd := duplicateParentListenSocket env addr in
  if bool_decide (fd ≠ -1) then
    emit (Log info "obtained socket for address {} from parent") >>
    modify (fun s => set_socket_map
      (<[get_ listener := Some (TcpListenSocketFd fd (address listener))]> (socket_map_ s)) s)
  else
    modify (fun s => set_socket_map
      (<[get_ listener :=
           Some (TcpListenSocketBind (address listener) (bindToPort listener))]>
         (socket_map_ s)) s).

(** [workers_.emplace_back(new Worker(...))] *)
Definition new_worker (i : nat) : Cmd unit :=
  emit (NewWorker i) >>
  modify (fun s => set_workers (workers_ s ++ [i]) s).

(** void InstanceImpl::initialize(Options&, TestHooks&, ComponentFactory&)
    The two loads are the places where an EnvoyException can come from the
    configuration; its text belongs to the loader and stands for any. *)
Definition initialize : Cmd unit :=
  emit (Log warn "initializing epoch {} (hot restart version={})") >>
  let* initial_config :=
    match load_initial env with
    | Some c => ret c
    | None => halt (Thrown (EnvoyException "unable to load configuration"))
    end in
  emit (Log info "admin address: {}") >>
  emit RestarterShutdownParentAdmin >>
  (let* s := get in
   let info := default (original_start_time_ s) (parent_start_time env) in
   modify (set_original_start_time info)) >>
  emit NewAdmin >>
  emit HandlerAddListener >>
  loadServerFlags (flagsPath initial_config) >>
  for_each (seq 0%nat (N.to_nat (N.max 1 (concurrency env)))) new_worker >>
  emit ThreadLocalRegisterThread >>
  emit StatsInitializeThreading >>
  emit CreateRuntime >>
  emit NewSslContextManager >>
  emit NewClusterManagerFactory >>
  modify (set_config (Some blank_config)) >>
  let* main_config :=
    match load_main env with
    | Some c => ret c
    | None => halt (Thrown (EnvoyException "invalid configuration"))
    end in
  modify (set_config (Some main_config)) >>
  for_each (listeners main_config) listen_socket >>
  emit (ListenForSignal SIGTERM) >>
  emit (ListenForSignal SIGUSR1) >>
  emit (ListenForSignal SIGHUP) >>
  initializeStatSinks >>
  emit CreateTimer >>
  modify (set_stat_flush_timer (Some StatFlushTimer)) >>
  emit (EnableTimer (statsFlushInterval main_config)) >>
  emit NewGuardDog >>
  emit ClusterManagerSetInitializedCb.

(** InstanceImpl::InstanceImpl(...) *)
Definition construct : Cmd unit :=
  failHealthcheck false >>
  match atoul (substring 0 6 (revision env)) with
  | None => halt (Thrown (EnvoyException "compiled GIT SHA is invalid. Invalid build."))
  | Some version_int =>
      gauge_set "server.version" version_int >>
      emit RestarterInitialize >>
      emit CreateDrainManager >>
      try_catch initialize is_EnvoyException (fun e =>
        emit (Log critical "error initializing configuration '{}': {}") >>
        emit ThreadLocalShutdownThread >>
        halt (ProcessExit 1))
  end.

(** [worker->initializeConfiguration], which starts the worker's listeners. *)
Definition initializeConfiguration (worker : Worker) : Cmd unit :=
  emit (WorkerInitializeConfiguration worker) >>
  if worker_listens env worker then ret tt
  else halt (Thrown (CreateListenerException "cannot listen")).

(** void InstanceImpl::startWorkers(TestHooks& hooks) *)
Definition startWorkers : Cmd unit :=
  emit (Log warn "all dependencies initialized. starting workers") >>
  (let* s := get in
   for_each (workers_ s) (fun worker =>
     try_catch (initializeConfiguration worker) is_CreateListenerException (fun e =>
       emit (Log critical
               "shutting down due to error initializing worker configuration: {}") >>
       shutdown))) >>
  emit RestarterDrainParentListeners >>
  emit DrainManagerStartParentShutdownSequence >>
  emit HooksOnServerInitialized.

(** void InstanceImpl::shutdownAdmin() *)
Definition shutdownAdmin : Cmd unit :=
  emit (Log warn "shutting down admin due to child startup") >>
  modify (set_stat_flush_timer None) >>
  emit HandlerCloseListeners >>
  emit AdminSocketClose >>
  emit (Log warn "terminating parent process") >>
  emit RestarterTerminateParent.

(** void InstanceImpl::run(), up to and including the blocking call
    [handler_.dispatcher().run(Block)]; [dispatched] is what the main
    event loop executes on the server before that call returns. *)
Definition run_loop (dispatched : Cmd unit) : Cmd unit :=
  emit (Log warn "starting main dispatch loop") >>
  emit GuardDogCreateWatchDog >>
  emit WatchDogStart >>
  emit (DispatcherRun Block) >>
  dispatched.

(** void InstanceImpl::run(), after the dispatcher has returned. *)
Definition run_exit : Cmd unit :=
  emit (Log warn "main dispatch loop exited") >>
  emit GuardDogStopWatching >>
  emit StatsShutdownThreading >>
  (let* s := get in
   for_each (workers_ s) (fun worker => emit (WorkerExit worker))) >>
  (let* s := get in
   match stat_flush_timer_ s with
   | Some _ => flushStats
   | None => ret tt
   end) >>
  (let* s := get in
   let* _ := deref (config_ s) in
   emit ClusterManagerShutdown) >>
  emit HandlerCloseConnections >>
  emit ThreadLocalShutdownThread >>
  emit (Log warn "exiting") >>
  emit LogFlush.

Definition run (dispatched : Cmd unit) : Cmd unit :=
  run_loop dispatched >> run_exit.
End Code.

(** The members before the constructor body runs. *)
Definition fresh_instance (env : Env) : InstanceImpl :=
  mkInstance (start_time env) ∅ [] ∅ None [] None.

Definition start (env : Env) : World InstanceImpl Event :=
  mkWorld (fresh_instance env) [].

(** *** Reading traces *)

Definition is_new_worker (e : Event) : bool :=
  match e with NewWorker _ => true | _ => false end.

Definition is_register_thread (e : Event) : bool :=
  match e with ThreadLocalRegisterThread => true | _ => false end.

(** Each [flushStats] asks the parent for its stats exactly once. *)
Definition is_flush (e : Event) : bool :=
  match e with RestarterGetParentStats => true | _ => false end.

Definition flushes (tr : list Event) : nat := length (List.filter is_flush tr).

(** The addresses passed to [duplicateParentListenSocket], in call order. *)
Definition duplicate_requests (tr : list Event) : list string :=
  omap (fun e => match e with
                 | RestarterDuplicateParentListenSocket a => Some a
                 | _ => None
                 end) tr.

(** *** The world a successful construction leaves

    Closed forms of the loops and branches of the constructor and of
    [flushStats]; the properties below relate them to the commands. *)

Section Closed.
Variable env : Env.

Definition tcp_url (l : Listener) : string :=
  String.append "tcp://" (asString (address l)).

Definition socket_for (l : Listener) : ListenSocket :=
  let fd := duplicateParentListenSocket env (tcp_url l) in
  if bool_decide (fd ≠ -1) then TcpListenSocketFd fd (address l)
  else TcpListenSocketBind (address l) (bindToPort l).

Definition socket_events (l : Listener) : list Event :=
  RestarterDuplicateParentListenSocket (tcp_url l) ::
  (if bool_decide (duplicateParentListenSocket env (tcp_url l) ≠ -1)
   then [Log info "obtained socket for address {} from parent"] else []).

Definition sockets_from (m : gmap ListenerPtr (option ListenSocket)) (ls : list Listener) :=
  foldl (fun m l => <[get_ l := Some (socket_for l)]> m) m ls.

Definition drain_flag (ic : InitialConfig) : bool :=
  match flagsPath ic with
  | Some path => fileExists env (String.append path "/drain")
  | None => false
  end.

Definition flags_events (ic : InitialConfig) : list Event :=
  match flagsPath ic with
  | Some path =>
      Log info "server flags path: {}" ::
      (if fileExists env (String.append path "/drain")
       then [Log warn "starting server in drain mode"] else [])
  | None => []
  end.

Definition stats_constructed (v : Z) (ic : InitialConfig) : gmap string Z :=
  let published := <["server.version" := uint64 v]> (<["server.live" := uint64 1]> ∅) in
  if drain_flag ic then <["server.live" := uint64 0]> published else published.

Definition udp_sink (mc : MainConfig) : list Sink :=
  match statsdUdpIpAddress mc, statsdUdpPort mc with
  | Some ip, _ => [UdpStatsdSink ip]
  | None, Some port => [UdpStatsdSinkLocalPort port]
  | None, None => []
  end.

Definition tcp_sink (mc : MainConfig) : list Sink :=
  match statsdTcpClusterName mc with
  | Some cluster => [TcpStatsdSink cluster]
  | None => []
  end.

Definition sink_events (mc : MainConfig) : list Event :=
  match statsdUdpIpAddress mc, statsdUdpPort mc with
  | Some ip, _ => [Log info "statsd UDP ip address: {}"; StatsAddSink (UdpStatsdSink ip)]
  | None, Some port =>
      [Log warn "statsd_local_udp_port has been DEPRECATED and will be removed in 1.4.0. Consider setting statsd_udp_ip_address instead.";
       Log info "statsd UDP port: {}"; StatsAddSink (UdpStatsdSinkLocalPort port)]
  | None, None => []
  end ++
  match statsdTcpClusterName mc with
  | Some cluster => [Log info "statsd TCP cluster: {}"; StatsAddSink (TcpStatsdSink cluster)]
  | None => []
  end.

Definition worker_ids : list Worker :=
  seq 0%nat (N.to_nat (N.max 1 (concurrency env))).

Definition events_before_workers (ic : InitialConfig) : list Event :=
  [RestarterInitialize; CreateDrainManager;
   Log warn "initializing epoch {} (hot restart version={})";
   Log info "admin address: {}"; RestarterShutdownParentAdmin; NewAdmin;
   HandlerAddListener] ++ flags_events ic.

Definition events_after_workers (mc : MainConfig) : list Event :=
  [StatsInitializeThreading; CreateRuntime; NewSslContextManager;
   NewClusterManagerFactory] ++
  flat_map socket_events (listeners mc) ++
  [ListenForSignal SIGTERM; ListenForSignal SIGUSR1; ListenForSignal SIGHUP] ++
  sink_events mc ++
  [CreateTimer; EnableTimer (statsFlushInterval mc); NewGuardDog;
   ClusterManagerSetInitializedCb].

Definition constructed (v : Z) (ic : InitialConfig) (mc : MainConfig)
    : World InstanceImpl Event :=
  mkWorld
    (mkInstance (default (start_time env) (parent_start_time env))
       (stats_constructed v ic) worker_ids (sockets_from ∅ (listeners mc))
       (Some mc) (udp_sink mc ++ tcp_sink mc) (Some StatFlushTimer))
    (events_before_workers ic ++ (NewWorker <$> worker_ids) ++
     ThreadLocalRegisterThread :: events_after_workers mc).

(** [startWorkers]: what one round of its loop does. *)
Definition worker_start_events (worker : Worker) : list Event :=
  WorkerInitializeConfiguration worker ::
  (if worker_listens env worker then []
   else [Log critical "shutting down due to error initializing worker configuration: {}";
         Log warn "shutdown invoked. sending SIGTERM to self"; Kill SIGTERM]).

(** [flushStats]: the gauges it writes and the calls it makes. *)
Definition stats_flushed (s : InstanceImpl) : gmap string Z :=
  <["server.days_until_first_cert_expiring" := uint64 (days_until_first_cert_expires env)]>
  (<["server.total_connections" := uint64 (numConnections env s + parent_num_connections env)]>
  (<["server.parent_connections" := uint64 (parent_num_connections env)]>
  (<["server.memory_heap_size" := uint64 (memory_reserved env)]>
  (<["server.memory_allocated" := uint64 (memory_allocated env + parent_memory_allocated env)]>
  (<["server.uptime" := uint64 (flush_time env - original_start_time_ s)]> (server_stats_ s)))))).

Definition counter_events (sinks : list Sink) (c : Counter) : list Event :=
  if counter_used c
  then (fun sink => SinkFlushCounter sink (counter_name c) (counter_latch c)) <$> sinks
  else [].

Definition gauge_events (sinks : list Sink) (g : Gauge) : list Event :=
  if gauge_used g
  then (fun sink => SinkFlushGauge sink (gauge_name g) (gauge_value g)) <$> sinks
  else [].

Definition flush_events (s : InstanceImpl) (interval : Z) : list Event :=
  [Log debug "flushing stats"; RestarterGetParentStats] ++
  flat_map (counter_events (stat_sinks_ s)) (store_counters env) ++
  flat_map (gauge_events (stat_sinks_ s)) (store_gauges env) ++
  [EnableTimer interval].
End Closed.

(** [P] survives the command [c], however [c] ends. *)
Definition keeps {A} (P : InstanceImpl -> Prop) (c : Cmd A) : Prop :=
  forall w, P (obj w) -> P (obj (c w).2).

(** *** Sample environments *)

Module Sample.
Definition http : Listener := mkListener 100%nat (mkAddress Ip "0.0.0.0:80") true.
Definition https : Listener := mkListener 200%nat (mkAddress Ip "0.0.0.0:443") true.

(** A hot-restarted child: the parent hands over port 80, the flags
    directory holds a drain file, worker 0 loses the race for its port. *)
Definition env (concurrency : N) : Env :=
  mkEnv "a1b2c3d4e5f6" concurrency
    (Some (mkInitialConfig (Some "/etc/envoy/flags")))
    (Some (mkMainConfig [http; https] None (Some 8125) (Some "statsd") 5000))
    (Some 900) 1000 1060
    (fun path => String.eqb path "/etc/envoy/flags/drain")
    (fun url => if String.eqb url "tcp://0.0.0.0:80" then 7 else -1)
    (fun w => negb (Nat.eqb w 0%nat))
    (fun _ => Some 3)
    10 20 30 40 50
    [mkCounter "cx_total" 4 true; mkCounter "unused" 0 false]
    [mkGauge "cx_active" 5 true].

Definition initial : InitialConfig := mkInitialConfig (Some "/etc/envoy/flags").
Definition main : MainConfig :=
  mkMainConfig [http; https] None (Some 8125) (Some "statsd") 5000.
(** 0xa1b2c3 *)
Definition version : Z := 10597059.

(** The server once constructed in that environment. *)
Definition world (concurrency : N) : World InstanceImpl Event :=
  constructed (env concurrency) version initial main.
End Sample.

End Server.

(** ** The rest of the code around the barrier and the server *)

(** [P] on the object survives the command [c], however [c] ends. *)
Definition stable {St Ev A} (P : St -> Prop) (c : M St Ev A) : Prop :=
  forall w, P (obj w) -> P (obj (c w).2).

Module InitManagerOps.
Import InitManager.

(** What can happen to a manager: its two member functions, and a target
    calling the lambda it was handed. *)
Inductive Op :=
| Register (t : Target)
| Initialize (cb : Callback)
| Complete (t : Target).

Section Ops.
Variable NDEBUG : bool.
Variable synchronous : Target -> bool.

Definition do_op (o : Op) : Cmd unit :=
  match o with
  | Register t => registerTarget NDEBUG t
  | Initialize cb => initialize NDEBUG synchronous cb
  | Complete t => target_callback NDEBUG t
  end.

Definition run_ops (ops : list Op) : Cmd unit := for_each ops do_op.

End Ops.

(** The order of the enum [State]. *)
Definition rank (s : State) : nat :=
  match s with
  | NotInitialized => 0
  | Initializing => 1
  | Initialized => 2
  end.

(** How [state_], [targets_] and [callback_] go together. *)
Definition consistent (m : InitManagerImpl) : Prop :=
  match state_ m with
  | NotInitialized => callback_ m = None
  | Initializing => targets_ m ≠ [] /\ is_Some (callback_ m)
  | Initialized => targets_ m = []
  end.

(** The targets whose [initialize] was called, in call order. *)
Definition initialized_targets (tr : list Event) : list Target :=
  omap (fun e => match e with TargetInitialize t => Some t | _ => None end) tr.
End InitManagerOps.

Module ServerMore.
Import Server.
Local Open Scope Z_scope.

(** The sinks handed to [stats_store_.addSink], in call order. *)
Definition registered_sinks (tr : list Event) : list Sink :=
  omap (fun e => match e with StatsAddSink s => Some s | _ => None end) tr.



Definition is_signal_handler (e : Event) : bool :=
  match e with ListenForSignal _ => true | _ => false end.


(** The connections of the workers that have a handler, not yet wrapped. *)
Definition connections_sum (env : Env) (ws : list Worker) : Z :=
  foldr (fun w acc => default 0 (worker_connections env w) + acc) 0 ws.


Section ListenSocketFd.
(** [Network::Utility::resolveUrl], which returns an address or throws. *)
Variable resolveUrl : string -> Exception + Address.
(** [socket.localAddress()] and [socket.fd()]. *)
Variable socket_address : ListenSocket -> Address.
Variable socket_fd : ListenSocket -> Z.
(** The order in which [for (const auto& entry : socket_map_)] visits the
    entries; the container's declaration fixes it. *)
Variable walk : gmap ListenerPtr (option ListenSocket) ->
                list (ListenerPtr * option ListenSocket).

(** [entry.second->localAddress()->asString() == addr->asString()] *)
Definition same_address (socket : ListenSocket) (addr : Address) : bool :=
  bool_decide (asString (socket_address socket) = asString addr).

(** The loop of [getListenSocketFd], which returns from inside. *)
Fixpoint search_fd (es : list (ListenerPtr * option ListenSocket)) (addr : Address)
    : Cmd Z :=
  match es with
  | [] => ret (-1)
  | entry :: es' =>
      let* socket := deref entry.2 in
      if same_address socket addr
      then ret (socket_fd socket)
      else search_fd es' addr
  end.

(** int InstanceImpl::getListenSocketFd(const std::string& address) *)
Definition getListenSocketFd (address : string) : Cmd Z :=
  let* addr :=
    match resolveUrl address with
    | inr a => ret a
    | inl e => halt (Thrown e)
    end in
  let* s := get in
  search_fd (walk (socket_map_ s)) addr.
End ListenSocketFd.

(** The order of the keys, in which an ordered map is walked. *)
Definition key_le (a b : ListenerPtr * option ListenSocket) : Prop := (a.1 <= b.1)%nat.

#[global] Instance key_le_dec : RelDecision key_le.
Proof. intros a b. unfold key_le. apply _. Defined.

Definition by_key (m : gmap ListenerPtr (option ListenSocket))
    : list (ListenerPtr * option ListenSocket) :=
  merge_sort key_le (map_to_list m).

(** The address a [TcpListenSocket] was made for. *)
Definition made_for (socket : ListenSocket) : Address :=
  match socket with
  | TcpListenSocketFd _ addr => addr
  | TcpListenSocketBind addr _ => addr
  end.

(** The descriptor of an inherited socket; 3 stands for a descriptor that
    the system call [socket] returned. *)
Definition descriptor (socket : ListenSocket) : Z :=
  match socket with
  | TcpListenSocketFd fd _ => fd
  | TcpListenSocketBind _ _ => 3
  end.

(** A resolver of [tcp://host:port]. *)
Definition resolve_tcp (url : string) : Exception + Address :=
  if String.prefix "tcp://" url
  then inr (mkAddress Ip (substring 6 (String.length url - 6) url))
  else inl (EnvoyException "unknown protocol scheme").

(** void InstanceImpl::getParentStats(HotRestart::GetParentStatsInfo& info):
    [(info.memory_allocated_, info.num_connections_)]. *)
Definition getParentStats (env : Env) (s : InstanceImpl) : Z * Z :=
  (memory_allocated env, numConnections env s).

(** A server whose configuration has a listener on a pipe. *)
Definition pipe : Listener := mkListener 300%nat (mkAddress Pipe "/var/run/envoy.sock") false.

Definition env_with_pipe : Env :=
  mkEnv "a1b2c3d4e5f6" 1
    (Some Sample.initial)
    (Some (mkMainConfig [Sample.http; pipe; Sample.https] None None None 5000))
    None 1000 1060
    (fun _ => false)
    (fun url => if String.eqb url "tcp://0.0.0.0:80" then 7 else -1)
    (fun _ => true) (fun _ => Some 0) 0 0 0 0 0 [] [].

(** A server whose configuration file cannot be loaded. *)
Definition env_without_config : Env :=
  mkEnv "a1b2c3d4e5f6" 1 None None None 1000 1060
    (fun _ => false) (fun _ => -1) (fun _ => true) (fun _ => Some 0) 0 0 0 0 0 [] [].
End ServerMore.

(** * Properties *)

(** ** Evaluation of commands *)

Ltac unfold_cmd :=
  unfold bind, get, modify, emit, ret, halt, ASSERT, try_catch in *.

(** ** std::list iterators *)

Module StdListFacts.
Import StdList.
Section Facts.
Context {T : Type} `{EqDecision T}.
Implicit Types l pre rest : std_list T.

Lemma deref_fresh l n : n ∉ l.*1 -> deref l n = None.
Proof.
  induction l as [|[m x] l IH]; simpl; [reflexivity|].
  intros Hn. rewrite not_elem_of_cons in Hn. destruct Hn as [Hne Hn].
  destruct (decide (m = n)); [congruence | auto].
Qed.

Lemma next_fresh l n : n ∉ l.*1 -> next l n = None.
Proof.
  induction l as [|[m x] l IH]; simpl; [reflexivity|].
  intros Hn. rewrite not_elem_of_cons in Hn. destruct Hn as [Hne Hn].
  destruct (decide (m = n)); [congruence | auto].
Qed.

Lemma deref_middle pre n x rest :
  n ∉ pre.*1 -> deref (pre ++ (n, x) :: rest) n = Some x.
Proof.
  induction pre as [|[m y] pre IH]; simpl; intros Hn.
  - destruct (decide (n = n)); congruence.
  - rewrite not_elem_of_cons in Hn. destruct Hn as [Hne Hn].
    destruct (decide (m = n)); [congruence | auto].
Qed.

Lemma next_middle pre n x rest :
  n ∉ pre.*1 -> next (pre ++ (n, x) :: rest) n = Some (begin_ rest).
Proof.
  induction pre as [|[m y] pre IH]; simpl; intros Hn.
  - destruct (decide (n = n)); congruence.
  - rewrite not_elem_of_cons in Hn. destruct Hn as [Hne Hn].
    destruct (decide (m = n)); [congruence | auto].
Qed.

Lemma nodup_middle pre n x rest :
  NoDup ((pre ++ (n, x) :: rest).*1) -> (n ∉ pre.*1) /\ (n ∉ rest.*1).
Proof.
  rewrite fmap_app, fmap_cons. simpl. intros Hnd.
  apply NoDup_app in Hnd as (_ & Hpre & Hrest).
  apply NoDup_cons in Hrest as [Hn _]. split; [|exact Hn].
  intros Hin. apply (Hpre n Hin). left.
Qed.

Lemma contains_true x l : x ∈ l.*2 -> contains x l = true.
Proof. intros Hx. unfold contains. apply bool_decide_eq_true_2, Hx. Qed.

Lemma elem_of_remove y x l : y ∈ (remove x l).*2 <-> y ∈ l.*2 /\ y ≠ x.
Proof.
  unfold remove. rewrite !list_elem_of_fmap. split.
  - intros ([n z] & -> & Hin). apply list_elem_of_filter in Hin as [Hne Hin].
    split; [exists (n, z); auto | exact Hne].
  - intros (([n z] & -> & Hin) & Hne). exists (n, z). split; [reflexivity|].
    apply list_elem_of_filter. auto.
Qed.

Lemma remove_remove_all (xs : list T) x l :
  filter (fun p => p.2 ∉ xs) (remove x l) = filter (fun p => p.2 ∉ x :: xs) l.
Proof.
  unfold remove. induction l as [|p l IH]; [reflexivity|].
  rewrite !filter_cons.
  destruct (decide (p.2 ≠ x)) as [Hne|Heq].
  - rewrite filter_cons.
    destruct (decide (p.2 ∉ xs)) as [Hxs|Hxs];
      destruct (decide (p.2 ∉ x :: xs)) as [Hc|Hc];
      rewrite not_elem_of_cons in Hc; try (f_equal; exact IH); tauto.
  - destruct (decide (p.2 ∉ x :: xs)) as [Hc|Hc]; [|exact IH].
    rewrite not_elem_of_cons in Hc. tauto.
Qed.

Lemma nodup_node_value l n x y :
  NoDup (l.*1) -> (n, x) ∈ l -> (n, y) ∈ l -> x = y.
Proof.
  induction l as [|[m z] l IH]; intros Hnd Hx Hy; [inversion Hx|].
  rewrite fmap_cons in Hnd. apply NoDup_cons in Hnd as [Hm Hnd].
  apply elem_of_cons in Hx as [Hx|Hx]; apply elem_of_cons in Hy as [Hy|Hy].
  - congruence.
  - exfalso. apply Hm. injection Hx as <- <-.
    apply list_elem_of_fmap. exists (n, y). split; [reflexivity | exact Hy].
  - exfalso. apply Hm. injection Hy as <- <-.
    apply list_elem_of_fmap. exists (n, x). split; [reflexivity | exact Hx].
  - apply IH; assumption.
Qed.

(** Erasing the value of a node erases the node. *)
Lemma remove_erases_node l n x :
  NoDup (l.*1) -> (n, x) ∈ l -> n ∉ (remove x l).*1.
Proof.
  intros Hnd Hin Hn. apply list_elem_of_fmap in Hn as ([m y] & Hm & Hy).
  simpl in Hm. subst m. unfold remove in Hy.
  apply list_elem_of_filter in Hy as [Hne Hy]. simpl in Hne.
  apply Hne. apply (nodup_node_value l n); assumption.
Qed.

End Facts.
End StdListFacts.

(** ** The initialization barrier *)

Module InitManagerFacts.
Import StdList StdListFacts InitManager.

Section Barrier.
Variable NDEBUG : bool.
Variable synchronous : Target -> bool.

Local Abbreviation registerTarget := (registerTarget NDEBUG).
Local Abbreviation register_all := (register_all NDEBUG).
Local Abbreviation target_callback := (target_callback NDEBUG).
Local Abbreviation target_initialize := (target_initialize NDEBUG synchronous).
Local Abbreviation initialize_loop := (initialize_loop NDEBUG synchronous).
Local Abbreviation initialize := (initialize NDEBUG synchronous).
Local Abbreviation complete_all := (complete_all NDEBUG).
Local Abbreviation barrier := (barrier NDEBUG synchronous).

Lemma nodes_for_fst k ts : (nodes_for k ts).*1 = seq k (length ts).
Proof. unfold nodes_for. apply fst_zip. rewrite length_seq. lia. Qed.

Lemma nodes_for_snd k ts : (nodes_for k ts).*2 = ts.
Proof. unfold nodes_for. apply snd_zip. rewrite length_seq. lia. Qed.

Lemma nodes_for_cons k t ts : nodes_for k (t :: ts) = (k, t) :: nodes_for (S k) ts.
Proof. reflexivity. Qed.

Lemma register_all_cons t ts w :
  register_all (t :: ts) w =
  match registerTarget t w with
  | (Ok _, w') => register_all ts w'
  | (Halt why, w') => (Halt why, w')
  end.
Proof. reflexivity. Qed.

Lemma complete_all_cons c cs w :
  complete_all (c :: cs) w =
  match target_callback c w with
  | (Ok _, w') => complete_all cs w'
  | (Halt why, w') => (Halt why, w')
  end.
Proof. reflexivity. Qed.

Lemma register_all_spec ts : forall st l k cb tr,
  st = NotInitialized ->
  register_all ts (mkWorld (mkInitManager st l k cb) tr) =
  (Ok tt, mkWorld (mkInitManager st (l ++ nodes_for k ts) (k + length ts) cb) tr).
Proof.
  induction ts as [|t ts IH]; intros st l k cb tr ->.
  - unfold nodes_for. simpl. rewrite app_nil_r, Nat.add_0_r. reflexivity.
  - rewrite register_all_cons.
    unfold InitManager.registerTarget. unfold_cmd. simpl. rewrite orb_true_r. simpl.
    rewrite IH by reflexivity. unfold push_back.
    rewrite <- app_assoc. simpl. rewrite nodes_for_cons.
    repeat f_equal. lia.
Qed.

Lemma initialize_loop_end fuel w : initialize_loop fuel End w = (Ok tt, w).
Proof. destruct fuel; reflexivity. Qed.

(** The loop over targets that all defer their completion: the list is not
    touched, every target from the iterator onwards is initialized once. *)
Lemma initialize_loop_deferred rest : forall pre n t fuel m tr,
  targets_ m = pre ++ (n, t) :: rest ->
  NoDup ((targets_ m).*1) ->
  (forall x, x ∈ t :: rest.*2 -> synchronous x = false) ->
  length rest < fuel ->
  initialize_loop fuel (At n) (mkWorld m tr) =
  (Ok tt, mkWorld m (tr ++ (TargetInitialize <$> t :: rest.*2))).
Proof.
  induction rest as [|[n' t'] rest IH]; intros pre n t fuel m tr Hl Hnd Hsync Hfuel.
  - destruct fuel as [|fuel]; [lia|]. simpl.
    pose proof Hnd as Hnd'. rewrite Hl in Hnd'.
    apply nodup_middle in Hnd' as [Hpre _].
    unfold InitManager.target_initialize. unfold_cmd. simpl.
    rewrite Hl, deref_middle by exact Hpre.
    rewrite (Hsync t) by left. simpl.
    rewrite Hl, next_middle by exact Hpre. simpl.
    apply initialize_loop_end.
  - destruct fuel as [|fuel]; [simpl in Hfuel; lia|]. simpl.
    pose proof Hnd as Hnd'. rewrite Hl in Hnd'.
    apply nodup_middle in Hnd' as [Hpre _].
    unfold InitManager.target_initialize. unfold_cmd. simpl.
    rewrite Hl, deref_middle by exact Hpre.
    rewrite (Hsync t) by left. simpl.
    rewrite Hl, next_middle by exact Hpre. simpl.
    specialize (IH (pre ++ [(n, t)]) n' t' fuel m (tr ++ [TargetInitialize t])).
    rewrite IH.
    + rewrite <- app_assoc. reflexivity.
    + rewrite Hl, <- app_assoc. reflexivity.
    + exact Hnd.
    + intros x Hx. apply Hsync. right. exact Hx.
    + simpl in Hfuel. lia.
Qed.

Lemma complete_all_nil w : complete_all [] w = (Ok tt, w).
Proof. reflexivity. Qed.

(** One completion while the manager is Initializing. *)
Lemma target_callback_step c l fresh done tr :
  c ∈ l.*2 ->
  target_callback c (mkWorld (mkInitManager Initializing l fresh (Some done)) tr) =
  (Ok tt,
   match remove c l with
   | [] => mkWorld (mkInitManager Initialized [] fresh (Some done))
             (tr ++ [TargetCompleted c; Invoked done Initialized])
   | l' => mkWorld (mkInitManager Initializing l' fresh (Some done))
             (tr ++ [TargetCompleted c])
   end).
Proof.
  intros Hc. unfold InitManager.target_callback, invoke. unfold_cmd. simpl.
  rewrite contains_true by exact Hc. rewrite orb_true_r. simpl.
  destruct (remove c l); simpl; [|reflexivity].
  rewrite <- app_assoc. reflexivity.
Qed.

Lemma filter_none_completed (l : std_list Target) :
  filter (fun p => p.2 ∉ @nil Target) l = l.
Proof.
  induction l as [|p l IHl]; [reflexivity|].
  rewrite filter_cons_True by apply not_elem_of_nil. f_equal. exact IHl.
Qed.

(** Completions delivered one by one: the continuation runs when, and only
    when, the last pending target has been removed. *)
Lemma complete_all_spec done cs : forall l fresh tr,
  NoDup cs ->
  (forall c, c ∈ cs -> c ∈ l.*2) ->
  l ≠ [] ->
  complete_all cs (mkWorld (mkInitManager Initializing l fresh (Some done)) tr) =
  (Ok tt,
   match filter (fun p => p.2 ∉ cs) l with
   | [] => mkWorld (mkInitManager Initialized [] fresh (Some done))
             (tr ++ (TargetCompleted <$> cs) ++ [Invoked done Initialized])
   | l' => mkWorld (mkInitManager Initializing l' fresh (Some done))
             (tr ++ (TargetCompleted <$> cs))
   end).
Proof.
  induction cs as [|c cs IH]; intros l fresh tr Hnd Hin Hne.
  - rewrite complete_all_nil, filter_none_completed.
    destruct l; [congruence|]. rewrite fmap_nil, app_nil_r. reflexivity.
  - apply NoDup_cons in Hnd as [Hc Hnd].
    rewrite complete_all_cons, target_callback_step by (apply Hin; left).
    rewrite <- remove_remove_all.
    destruct (remove c l) as [|p l1] eqn:Hrem.
    + (* that was the last pending target *)
      destruct cs as [|c' cs].
      * rewrite complete_all_nil, filter_nil. reflexivity.
      * exfalso. assert (Hc' : c' ∈ (remove c l).*2).
        { apply elem_of_remove. split; [apply Hin; right; left|].
          intros ->. apply Hc. left. }
        rewrite Hrem in Hc'. inversion Hc'.
    + rewrite IH; [| exact Hnd | | discriminate].
      * rewrite fmap_cons.
        destruct (filter _ (p :: l1)); rewrite <- app_assoc; reflexivity.
      * intros x Hx. rewrite <- Hrem. apply elem_of_remove.
        split; [apply Hin; right; exact Hx|]. intros ->. contradiction.
Qed.

Lemma invocations_app cb tr1 tr2 :
  invocations cb (tr1 ++ tr2) = invocations cb tr1 + invocations cb tr2.
Proof. unfold invocations. rewrite List.filter_app, length_app. reflexivity. Qed.

Lemma invocations_target_events cb (f : Target -> Event) ts :
  (forall t, is_invocation cb (f t) = false) -> invocations cb (f <$> ts) = 0.
Proof.
  intros Hf. induction ts as [|t ts IH]; [reflexivity|].
  rewrite fmap_cons. unfold invocations in *. simpl. rewrite Hf. exact IH.
Qed.

Lemma invocations_barrier_trace done ts cs seen :
  invocations done (((TargetInitialize <$> ts) ++ (TargetCompleted <$> cs))
                    ++ [Invoked done seen]) = 1.
Proof.
  rewrite !invocations_app, !invocations_target_events by reflexivity.
  unfold invocations. simpl. rewrite bool_decide_eq_true_2 by reflexivity.
  reflexivity.
Qed.

Lemma filter_all_completed (cs : list Target) (l : std_list Target) :
  (forall t, t ∈ l.*2 -> t ∈ cs) -> filter (fun p => p.2 ∉ cs) l = [].
Proof.
  induction l as [|p l IH]; intros Hall; [reflexivity|].
  rewrite filter_cons_False.
  - apply IH. intros t Ht. apply Hall. right. exact Ht.
  - intros Hp. apply Hp, Hall. left.
Qed.

Lemma nodes_for_nodup k ts : NoDup ((nodes_for k ts).*1).
Proof. rewrite nodes_for_fst. apply NoDup_seq. Qed.

(** One synchronous target is enough: once its callback has erased its
    node, advancing the loop's iterator is invalid. *)
Lemma initialize_loop_synchronous done rest : forall pre n t fuel l fresh tr,
  l = pre ++ (n, t) :: rest ->
  NoDup (l.*1) ->
  (exists x, x ∈ t :: rest.*2 /\ synchronous x = true) ->
  length rest < fuel ->
  exists w,
    initialize_loop fuel (At n)
      (mkWorld (mkInitManager Initializing l fresh (Some done)) tr) =
    (Halt InvalidIterator, w).
Proof.
  induction rest as [|[n' t'] rest IH]; intros pre n t fuel l fresh tr -> Hnd Hsync Hfuel;
    (destruct fuel as [|fuel]; [simpl in Hfuel; lia|]);
    pose proof (nodup_middle _ _ _ _ Hnd) as [Hpre _];
    match type of Hnd with NoDup (?l.*1) =>
      assert (Hin : (n, t) ∈ l) by (apply elem_of_app; right; left);
      assert (Hint : t ∈ l.*2)
        by (apply list_elem_of_fmap; exists (n, t); split; [reflexivity | exact Hin]);
      pose proof (remove_erases_node l n t Hnd Hin) as Hgone
    end;
    simpl initialize_loop; unfold InitManager.target_initialize; unfold_cmd;
    cbn [obj out targets_]; rewrite deref_middle by exact Hpre;
    destruct (synchronous t) eqn:Ht; cbn [obj out].
  - rewrite target_callback_step by exact Hint.
    destruct (remove t _) as [|p l1] eqn:Hrem; cbn [obj out targets_];
      [simpl; eauto | rewrite next_fresh by exact Hgone; eauto].
  - exfalso. destruct Hsync as (x & Hx & Hxs). simpl in Hx.
    apply list_elem_of_singleton in Hx as ->. congruence.
  - rewrite target_callback_step by exact Hint.
    destruct (remove t _) as [|p l1] eqn:Hrem; cbn [obj out targets_];
      [simpl; eauto | rewrite next_fresh by exact Hgone; eauto].
  - cbn [obj out targets_]. rewrite next_middle by exact Hpre.
    cbn [begin_].
    apply (IH (pre ++ [(n, t)]) n' t').
    + rewrite <- app_assoc. reflexivity.
    + exact Hnd.
    + destruct Hsync as (x & Hx & Hxs). exists x. split; [|exact Hxs].
      rewrite fmap_cons in Hx. apply elem_of_cons in Hx as [-> | Hx];
        [congruence | exact Hx].
    + simpl in Hfuel. lia.
Qed.

(** Whenever some registered target is synchronous, [initialize] does not
    return: it ends on an invalidated iterator. *)
Lemma initialize_synchronous_never_returns ts done :
  (exists x, x ∈ ts /\ synchronous x = true) ->
  exists w,
    (register_all ts >> initialize done) start = (Halt InvalidIterator, w).
Proof.
  intros Hsync. unfold bind, start, new_manager.
  rewrite register_all_spec by reflexivity. cbn [app Nat.add].
  destruct ts as [|t ts]; [destruct Hsync as (x & Hx & _); inversion Hx|].
  unfold InitManager.initialize. unfold_cmd.
  cbn [obj out state_ targets_]. rewrite orb_true_r.
  rewrite nodes_for_cons. cbn [StdList.empty obj out set_state set_callback
    state_ targets_ fresh_ callback_ begin_].
  apply (initialize_loop_synchronous done (nodes_for 1 ts) [] 0 t).
  - reflexivity.
  - apply (nodes_for_nodup 0 (t :: ts)).
  - rewrite nodes_for_snd. exact Hsync.
  - simpl. lia.
Qed.

(** [initialize] on a non-empty list of targets that all defer. *)
Lemma initialize_deferred t ts done :
  (forall x, x ∈ t :: ts -> synchronous x = false) ->
  initialize done
    (mkWorld (mkInitManager NotInitialized (nodes_for 0 (t :: ts)) (length (t :: ts)) None) []) =
  (Ok tt,
   mkWorld (mkInitManager Initializing (nodes_for 0 (t :: ts)) (length (t :: ts)) (Some done))
     (TargetInitialize <$> t :: ts)).
Proof.
  intros Hsync. unfold InitManager.initialize. unfold_cmd. simpl.
  rewrite orb_true_r. simpl.
  pose proof (initialize_loop_deferred (nodes_for 1 ts) [] 0 t (S (length (nodes_for 1 ts)))
    (mkInitManager Initializing (nodes_for 0 (t :: ts)) (S (length ts)) (Some done)) []) as Hloop.
  rewrite nodes_for_snd in Hloop. simpl in Hloop.
  unfold set_state, set_callback. simpl.
  replace (length (zip (seq 1 (length ts)) ts)) with (length (nodes_for 1 ts)) by reflexivity.
  apply Hloop.
  - reflexivity.
  - apply (nodes_for_nodup 0 (t :: ts)).
  - exact Hsync.
  - lia.
Qed.

(** [initialize] after any registrations always ends, and in one of two
    ways: it returns, or it stops on an invalidated iterator; the bound
    on the loop in the model is never reached. *)
Lemma initialize_outcome ts done :
  exists w,
    (register_all ts >> initialize done) start = (Ok tt, w) \/
    (register_all ts >> initialize done) start = (Halt InvalidIterator, w).
Proof.
  destruct (decide (Exists (fun x => synchronous x = true) ts)) as [Hsome|Hnone].
  - apply Exists_exists in Hsome.
    destruct (initialize_synchronous_never_returns ts done Hsome) as [w Hw].
    exists w. right. exact Hw.
  - assert (Hall : forall x, x ∈ ts -> synchronous x = false).
    { intros x Hx. destruct (synchronous x) eqn:Hsx; [|reflexivity].
      exfalso. apply Hnone, Exists_exists. eauto. }
    unfold bind, start, new_manager.
    rewrite register_all_spec by reflexivity. cbn [app Nat.add].
    destruct ts as [|t ts].
    + eexists. left. unfold InitManager.initialize, invoke. unfold_cmd. simpl.
      rewrite orb_true_r. reflexivity.
    + eexists. left. apply initialize_deferred. exact Hall.
Qed.
End Barrier.

(** C1: after any sequence of registerTarget calls and one initialize(done),
    when every registered target defers and then calls its completion
    callback exactly once, in whatever order, done runs exactly once, and it
    runs after the completion of every registered target. *)
Theorem barrier_done_once_after_all_targets
    (NDEBUG : bool) (synchronous : Target -> bool)
    (ts cs : list Target) (done : Callback) :
  (forall t, t ∈ ts -> synchronous t = false) ->
  NoDup cs ->
  (forall t, t ∈ cs <-> t ∈ ts) ->
  exists w seen,
    barrier NDEBUG synchronous ts done cs start = (Ok tt, w) /\
    state_ (obj w) = Initialized /\
    targets_ (obj w) = [] /\
    out w = (TargetInitialize <$> ts) ++ (TargetCompleted <$> cs) ++ [Invoked done seen] /\
    invocations done (out w) = 1.
Proof.
  intros Hsync Hnd Hsame.
  unfold barrier, bind, start, new_manager.
  rewrite register_all_spec by reflexivity. simpl.
  destruct ts as [|t ts].
  - (* nothing registered: cs is empty as well *)
    destruct cs as [|c cs]; [|exfalso; apply (not_elem_of_nil c), Hsame; left].
    exists (mkWorld (mkInitManager Initialized [] 0 None) [Invoked done NotInitialized]),
      NotInitialized.
    unfold initialize, invoke. unfold_cmd. simpl. rewrite orb_true_r. simpl.
    repeat split; try reflexivity.
    unfold invocations. simpl. rewrite bool_decide_eq_true_2 by reflexivity. reflexivity.
  - rewrite (initialize_deferred NDEBUG synchronous t ts done Hsync).
    rewrite complete_all_spec; [| exact Hnd | | discriminate].
    + rewrite filter_all_completed.
      * eexists _, Initialized. repeat split.
        rewrite app_assoc. apply invocations_barrier_trace.
      * intros x Hx. rewrite nodes_for_snd in Hx. apply Hsame, Hx.
    + intros c Hc. rewrite nodes_for_snd. apply Hsame, Hc.
Qed.

Lemma barrier_done_once_after_all_targets_witness :
  exists w seen,
    barrier true (fun _ => false) [10; 20; 30] 7 [20; 30; 10] start = (Ok tt, w) /\
    state_ (obj w) = Initialized /\
    targets_ (obj w) = [] /\
    out w = (TargetInitialize <$> [10; 20; 30]) ++ (TargetCompleted <$> [20; 30; 10])
            ++ [Invoked 7 seen] /\
    invocations 7 (out w) = 1.
Proof.
  apply (barrier_done_once_after_all_targets true (fun _ => false) [10; 20; 30] [20; 30; 10] 7).
  - reflexivity.
  - apply (bool_decide_unpack _). vm_compute. exact I.
  - intros t. rewrite !elem_of_cons, !elem_of_nil. tauto.
Defined.

(** C2: with no target registered, initialize(done) returns with state_
    Initialized and has run done once, synchronously; done is called first
    and state_ is assigned afterwards, so the continuation observes
    NotInitialized, whereas on the path with targets it observes
    Initialized. *)
Theorem initialize_empty_runs_done_before_transition
    (NDEBUG : bool) (synchronous : Target -> bool) (done : Callback) (t : Target) :
  initialize NDEBUG synchronous done start =
    (Ok tt, mkWorld (mkInitManager Initialized [] 0 None) [Invoked done NotInitialized]) /\
  barrier NDEBUG (fun _ => false) [t] done [t] start =
    (Ok tt, mkWorld (mkInitManager Initialized [] 1 (Some done))
              [TargetInitialize t; TargetCompleted t; Invoked done Initialized]).
Proof.
  split.
  - unfold initialize, invoke, start. unfold_cmd. simpl. rewrite orb_true_r. reflexivity.
  - unfold barrier, bind, start, new_manager.
    rewrite register_all_spec by reflexivity. cbn [app Nat.add].
    rewrite (initialize_deferred NDEBUG (fun _ => false) t [] done) by reflexivity.
    rewrite complete_all_cons, target_callback_step by (simpl; left).
    unfold StdList.remove. change (nodes_for 0 [t]) with [(0, t)].
    rewrite filter_cons_False by (simpl; intros H; apply H; reflexivity).
    rewrite filter_nil. reflexivity.
Qed.

(** C3: a single registered target whose initialize calls the completion
    callback before returning: the callback erases the node the loop's
    iterator refers to, and the loop then advances that iterator. *)
Theorem initialize_sync_target_invalid_iterator
    (NDEBUG : bool) (done : Callback) (t : Target) :
  barrier NDEBUG (fun _ => true) [t] done [] start =
    (Halt InvalidIterator,
     mkWorld (mkInitManager Initialized [] 1 (Some done))
       [TargetInitialize t; TargetCompleted t; Invoked done Initialized]).
Proof.
  unfold barrier, bind, start, new_manager.
  rewrite register_all_spec by reflexivity. simpl.
  change (nodes_for 0 [t]) with [(0, t)].
  unfold initialize, target_initialize. unfold_cmd. simpl.
  rewrite orb_true_r. simpl.
  unfold set_state, set_callback, target_initialize. unfold_cmd. simpl.
  rewrite target_callback_step by (simpl; left).
  unfold StdList.remove.
  rewrite filter_cons_False by (simpl; intros H; apply H; reflexivity).
  rewrite filter_nil. reflexivity.
Qed.
End InitManagerFacts.

(** ** The server object *)

Module ServerFacts.
Import Server.
Local Open Scope Z_scope.

(** Evaluation of straight-line commands; map updates are left symbolic. *)
Ltac exec :=
  cbv beta iota zeta delta
    [bind ret halt get modify emit ASSERT try_catch deref gauge_set
     failHealthcheck shutdown add_sink new_worker
     set_original_start_time set_server_stats set_workers set_socket_map
     set_config set_stat_sinks set_stat_flush_timer
     obj out original_start_time_ server_stats_ workers_ socket_map_ config_
     stat_sinks_ stat_flush_timer_ is_EnvoyException is_CreateListenerException
     negb orb].

Lemma bind_run {St Ev A B} (m : M St Ev A) (k : A -> M St Ev B) w a w' :
  m w = (Ok a, w') -> bind m k w = k a w'.
Proof. intros H. unfold bind. rewrite H. reflexivity. Qed.

(** One emit, modify or get in front of a bind. *)
Ltac step :=
  erewrite bind_run by reflexivity;
  cbn [obj out set_original_start_time set_server_stats set_workers set_socket_map
       set_config set_stat_sinks set_stat_flush_timer
       original_start_time_ server_stats_ workers_ socket_map_ config_
       stat_sinks_ stat_flush_timer_].

Section Loops.
Variable NDEBUG : bool.
Variable env : Env.

Lemma new_workers_run n : forall k w,
  for_each (seq k n) new_worker w =
  (Ok tt, mkWorld (set_workers (workers_ (obj w) ++ seq k n) (obj w))
            (out w ++ (NewWorker <$> seq k n))).
Proof.
  induction n as [|n IH]; intros k [s tr].
  - destruct s. simpl. unfold ret, set_workers. simpl. rewrite !app_nil_r. reflexivity.
  - change (seq k (S n)) with (k :: seq (S k) n).
    change (for_each (k :: seq (S k) n) new_worker (mkWorld s tr))
      with (bind (new_worker k) (fun _ => for_each (seq (S k) n) new_worker) (mkWorld s tr)).
    exec. rewrite IH. exec. rewrite fmap_cons, <- !app_assoc. reflexivity.
Qed.

Lemma listen_socket_run l w :
  NDEBUG = true \/ type (address l) = Ip ->
  listen_socket NDEBUG env l w =
  (Ok tt, mkWorld (set_socket_map (<[get_ l := Some (socket_for env l)]> (socket_map_ (obj w))) (obj w))
            (out w ++ socket_events env l)).
Proof.
  intros Hip. destruct w as [s tr].
  unfold listen_socket, socket_for, socket_events, tcp_url.
  assert (Hassert : NDEBUG || bool_decide (type (address l) = Ip) = true).
  { destruct Hip as [-> | ->]; [reflexivity|].
    rewrite bool_decide_eq_true_2 by reflexivity. apply orb_true_r. }
  unfold ASSERT. rewrite Hassert. exec.
  destruct (bool_decide (duplicateParentListenSocket env _ ≠ -1));
    exec; rewrite <- ?app_assoc; reflexivity.
Qed.

Lemma listen_sockets_run ls : forall w,
  NDEBUG = true \/ Forall (fun l => type (address l) = Ip) ls ->
  for_each ls (listen_socket NDEBUG env) w =
  (Ok tt, mkWorld (set_socket_map (sockets_from env (socket_map_ (obj w)) ls) (obj w))
            (out w ++ flat_map (socket_events env) ls)).
Proof.
  induction ls as [|l ls IH]; intros [s tr] Hip.
  - destruct s. simpl. unfold ret, set_socket_map. simpl. rewrite app_nil_r. reflexivity.
  - change (for_each (l :: ls) (listen_socket NDEBUG env) (mkWorld s tr))
      with (bind (listen_socket NDEBUG env l)
              (fun _ => for_each ls (listen_socket NDEBUG env)) (mkWorld s tr)).
    unfold bind. rewrite listen_socket_run.
    + rewrite IH.
      * exec. simpl flat_map. rewrite <- app_assoc. reflexivity.
      * destruct Hip as [Hn | Hall]; [left; exact Hn | right].
        apply Forall_cons in Hall as [_ Hall]. exact Hall.
    + destruct Hip as [Hn | Hall]; [left; exact Hn | right].
      apply Forall_cons in Hall as [Hl _]. exact Hl.
Qed.

Lemma loadServerFlags_run ic w :
  loadServerFlags env (flagsPath ic) w =
  (Ok tt,
   mkWorld (if drain_flag env ic
            then set_server_stats (<["server.live" := uint64 0]> (server_stats_ (obj w))) (obj w)
            else obj w)
     (out w ++ flags_events env ic)).
Proof.
  destruct w as [s tr].
  unfold loadServerFlags, drain_flag, flags_events. destruct (flagsPath ic) as [path|].
  - exec. destruct (fileExists env _); exec; rewrite <- ?app_assoc; reflexivity.
  - exec. rewrite app_nil_r. reflexivity.
Qed.

Lemma initializeStatSinks_run mc w :
  config_ (obj w) = Some mc ->
  initializeStatSinks w =
  (Ok tt, mkWorld (set_stat_sinks (stat_sinks_ (obj w) ++ udp_sink mc ++ tcp_sink mc) (obj w))
            (out w ++ sink_events mc)).
Proof.
  destruct w as [[t0 st ws sm cf sk tm] tr]. simpl. intros ->.
  unfold initializeStatSinks, udp_sink, tcp_sink, sink_events.
  exec.
  destruct (statsdUdpIpAddress mc), (statsdUdpPort mc), (statsdTcpClusterName mc);
    exec; rewrite <- ?app_assoc; simpl; rewrite ?app_nil_r; reflexivity.
Qed.

(** [initialize] from the state the constructor hands it. *)
Lemma initialize_ok st tr ic mc :
  load_initial env = Some ic ->
  load_main env = Some mc ->
  NDEBUG = true \/ Forall (fun l => type (address l) = Ip) (listeners mc) ->
  initialize NDEBUG env (mkWorld (mkInstance (start_time env) st [] ∅ None [] None) tr) =
  (Ok tt,
   mkWorld
     (mkInstance (default (start_time env) (parent_start_time env))
        (if drain_flag env ic then <["server.live" := uint64 0]> st else st)
        (worker_ids env) (sockets_from env ∅ (listeners mc))
        (Some mc) (udp_sink mc ++ tcp_sink mc) (Some StatFlushTimer))
     (tr ++ [Log warn "initializing epoch {} (hot restart version={})";
             Log info "admin address: {}"; RestarterShutdownParentAdmin; NewAdmin;
             HandlerAddListener] ++ flags_events env ic ++
      (NewWorker <$> worker_ids env) ++
      ThreadLocalRegisterThread :: events_after_workers env mc)).
Proof.
  intros Hic Hmc Hip. unfold initialize. rewrite Hic, Hmc.
  repeat step.
  erewrite bind_run by apply loadServerFlags_run.
  erewrite bind_run by apply new_workers_run.
  repeat step.
  erewrite bind_run by (apply listen_sockets_run; exact Hip).
  repeat step.
  erewrite bind_run by (apply (initializeStatSinks_run mc); reflexivity).
  repeat step.
  unfold emit, events_after_workers, worker_ids.
  destruct (parent_start_time env), (drain_flag env ic); exec; simpl default;
    rewrite <- ?app_assoc; simpl app; reflexivity.
Qed.

(** The constructor runs to completion when the SHA parses, both
    configuration loads succeed and every listener is an IP listener. *)
Lemma construct_ok v ic mc :
  atoul (substring 0 6 (revision env)) = Some v ->
  load_initial env = Some ic ->
  load_main env = Some mc ->
  NDEBUG = true \/ Forall (fun l => type (address l) = Ip) (listeners mc) ->
  construct NDEBUG env (start env) = (Ok tt, constructed env v ic mc).
Proof.
  intros Hsha Hic Hmc Hip.
  unfold construct, start, fresh_instance. rewrite Hsha.
  repeat step.
  unfold try_catch. exec.
  rewrite (initialize_ok _ _ ic mc Hic Hmc Hip).
  unfold constructed, stats_constructed, events_before_workers.
  destruct (drain_flag env ic); simpl app; reflexivity.
Qed.

Lemma emit_each {A} (f : A -> Event) xs : forall w : World InstanceImpl Event,
  for_each xs (fun x => emit (f x)) w = (Ok tt, mkWorld (obj w) (out w ++ (f <$> xs))).
Proof.
  induction xs as [|x xs IH]; intros [s tr].
  - simpl. unfold ret. rewrite app_nil_r. reflexivity.
  - simpl. step. rewrite IH. simpl. rewrite <- app_assoc. reflexivity.
Qed.

Lemma flush_counters_run cs : forall w : World InstanceImpl Event,
  for_each cs (fun counter =>
    let delta := counter_latch counter in
    if counter_used counter then
      let* s := get in
      for_each (stat_sinks_ s) (fun sink =>
        emit (SinkFlushCounter sink (counter_name counter) delta))
    else ret tt) w =
  (Ok tt, mkWorld (obj w) (out w ++ flat_map (counter_events (stat_sinks_ (obj w))) cs)).
Proof.
  induction cs as [|c cs IH]; intros [s tr].
  - simpl. unfold ret. rewrite app_nil_r. reflexivity.
  - simpl for_each. erewrite bind_run; cycle 1.
    { instantiate (1 := mkWorld s (tr ++ counter_events (stat_sinks_ s) c)).
      instantiate (1 := tt). unfold counter_events.
      destruct (counter_used c).
      - step. apply emit_each.
      - unfold ret. rewrite app_nil_r. reflexivity. }
    rewrite IH. cbn [obj out]. rewrite <- app_assoc. reflexivity.
Qed.

Lemma flush_gauges_run gs : forall w : World InstanceImpl Event,
  for_each gs (fun g =>
    if gauge_used g then
      let* s := get in
      for_each (stat_sinks_ s) (fun sink =>
        emit (SinkFlushGauge sink (gauge_name g) (gauge_value g)))
    else ret tt) w =
  (Ok tt, mkWorld (obj w) (out w ++ flat_map (gauge_events (stat_sinks_ (obj w))) gs)).
Proof.
  induction gs as [|g gs IH]; intros [s tr].
  - simpl. unfold ret. rewrite app_nil_r. reflexivity.
  - simpl for_each. erewrite bind_run; cycle 1.
    { instantiate (1 := mkWorld s (tr ++ gauge_events (stat_sinks_ s) g)).
      instantiate (1 := tt). unfold gauge_events.
      destruct (gauge_used g).
      - step. apply emit_each.
      - unfold ret. rewrite app_nil_r. reflexivity. }
    rewrite IH. cbn [obj out]. rewrite <- app_assoc. reflexivity.
Qed.

Lemma flushStats_run w timer config :
  stat_flush_timer_ (obj w) = Some timer ->
  config_ (obj w) = Some config ->
  flushStats env w =
  (Ok tt, mkWorld (set_server_stats (stats_flushed env (obj w)) (obj w))
            (out w ++ flush_events env (obj w) (statsFlushInterval config))).
Proof.
  destruct w as [[t0 st ws sm cf sk tm] tr]. cbn [obj stat_flush_timer_ config_].
  intros -> ->. unfold flushStats, gauge_set.
  repeat step.
  erewrite bind_run by apply flush_counters_run.
  erewrite bind_run by apply flush_gauges_run.
  repeat step. unfold emit, flush_events, stats_flushed. cbn.
  rewrite <- !app_assoc. reflexivity.
Qed.

(** What [run] does once the dispatcher has returned. *)
Lemma run_exit_ok w config :
  config_ (obj w) = Some config ->
  run_exit env w =
  (Ok tt,
   mkWorld
     (match stat_flush_timer_ (obj w) with
      | Some _ => set_server_stats (stats_flushed env (obj w)) (obj w)
      | None => obj w
      end)
     (out w ++
      [Log warn "main dispatch loop exited"; GuardDogStopWatching; StatsShutdownThreading] ++
      (WorkerExit <$> workers_ (obj w)) ++
      match stat_flush_timer_ (obj w) with
      | Some _ => flush_events env (obj w) (statsFlushInterval config)
      | None => []
      end ++
      [ClusterManagerShutdown; HandlerCloseConnections; ThreadLocalShutdownThread;
       Log warn "exiting"; LogFlush])).
Proof.
  destruct w as [[t0 st ws sm cf sk tm] tr]. cbn [obj config_].
  intros ->. unfold run_exit.
  repeat step.
  erewrite bind_run; cycle 1.
  { step. apply emit_each. }
  cbn [obj out workers_ stat_flush_timer_].
  destruct tm as [timer|].
  - erewrite bind_run; cycle 1.
    { step. apply (flushStats_run _ timer config); reflexivity. }
    repeat step. unfold emit, flush_events. cbn [obj out].
    rewrite <- !app_assoc. cbn [app]. reflexivity.
  - repeat step. unfold emit. cbn [obj out].
    rewrite <- !app_assoc. cbn [app]. reflexivity.
Qed.

Lemma shutdownAdmin_run w :
  shutdownAdmin w =
  (Ok tt,
   mkWorld (set_stat_flush_timer None (obj w))
     (out w ++ [Log warn "shutting down admin due to child startup"; HandlerCloseListeners;
                AdminSocketClose; Log warn "terminating parent process";
                RestarterTerminateParent])).
Proof.
  destruct w as [s tr]. unfold shutdownAdmin. repeat step.
  unfold emit. cbn. rewrite <- !app_assoc. reflexivity.
Qed.

Lemma flushes_app tr1 tr2 : flushes (tr1 ++ tr2) = (flushes tr1 + flushes tr2)%nat.
Proof. unfold flushes. rewrite List.filter_app, length_app. reflexivity. Qed.

Lemma flushes_none tr : (forall e, e ∈ tr -> is_flush e = false) -> flushes tr = 0%nat.
Proof.
  induction tr as [|e tr IH]; intros Hall; [reflexivity|].
  unfold flushes in *. simpl. rewrite (Hall e) by left.
  apply IH. intros e' He'. apply Hall. right. exact He'.
Qed.

Lemma flushes_flat_map {A} (f : A -> list Event) xs :
  (forall x e, e ∈ f x -> is_flush e = false) -> flushes (flat_map f xs) = 0%nat.
Proof.
  intros Hf. apply flushes_none. intros e He.
  apply list_elem_of_In, in_flat_map in He as (x & _ & He).
  apply (Hf x). apply list_elem_of_In. exact He.
Qed.

(** One [flushStats] asks the parent once. *)
Lemma flushes_flush_events s interval : flushes (flush_events env s interval) = 1%nat.
Proof.
  unfold flush_events. rewrite !flushes_app, !flushes_flat_map; [reflexivity| |].
  - intros g e. unfold gauge_events. destruct (gauge_used g).
    + intros (sink & -> & _)%list_elem_of_fmap. reflexivity.
    + intros He. inversion He.
  - intros c e. unfold counter_events. destruct (counter_used c).
    + intros (sink & -> & _)%list_elem_of_fmap. reflexivity.
    + intros He. inversion He.
Qed.
End Loops.

(** *** Facts that hold whatever way a command ends *)

Section Keeps.
Variable P : InstanceImpl -> Prop.

Lemma keeps_ret {A} (a : A) : keeps P (ret a).
Proof. intros w H. exact H. Qed.

Lemma keeps_halt {A} why : keeps P (halt (A := A) why).
Proof. intros w H. exact H. Qed.

Lemma keeps_emit e : keeps P (emit e).
Proof. intros w H. exact H. Qed.

Lemma keeps_get : keeps P get.
Proof. intros w H. exact H. Qed.

Lemma keeps_modify f : (forall s, P s -> P (f s)) -> keeps P (modify f).
Proof. intros Hf w H. apply Hf, H. Qed.

Lemma keeps_bind {A B} (c : Cmd A) (k : A -> Cmd B) :
  keeps P c -> (forall a, keeps P (k a)) -> keeps P (bind c k).
Proof.
  intros Hc Hk w H. unfold bind. specialize (Hc w H).
  destruct (c w) as [[a|why] w']; simpl in *; [apply Hk, Hc | exact Hc].
Qed.

Lemma keeps_try_catch {A} (c : Cmd A) sel handler :
  keeps P c -> (forall e, keeps P (handler e)) -> keeps P (try_catch c sel handler).
Proof.
  intros Hc Hh w H. unfold try_catch. specialize (Hc w H).
  destruct (c w) as [[a|[e| | | | | |]] w']; simpl in *; try exact Hc.
  destruct (sel e); [apply Hh, Hc | exact Hc].
Qed.

Lemma keeps_for_each {A} (xs : list A) body :
  (forall x, keeps P (body x)) -> keeps P (for_each xs body).
Proof.
  intros Hb. induction xs as [|x xs IH]; [apply keeps_ret|].
  simpl. apply keeps_bind; [apply Hb | intros _; exact IH].
Qed.

Lemma keeps_ASSERT ndebug cond : keeps P (ASSERT ndebug cond).
Proof. unfold ASSERT. destruct (ndebug || cond); [apply keeps_ret | apply keeps_halt]. Qed.

Lemma keeps_deref {A} (p : option A) : keeps P (deref p).
Proof. destruct p; [apply keeps_ret | apply keeps_halt]. Qed.
End Keeps.

Ltac keeps_step :=
  lazymatch goal with
  | |- keeps _ (bind _ _) => apply keeps_bind; [|intros ?]
  | |- keeps _ (emit _) => apply keeps_emit
  | |- keeps _ (ret _) => apply keeps_ret
  | |- keeps _ (halt _) => apply keeps_halt
  | |- keeps _ get => apply keeps_get
  | |- keeps _ (modify _) => apply keeps_modify; intros ? Hkept; exact Hkept
  | |- keeps _ (for_each _ _) => apply keeps_for_each; intros ?
  | |- keeps _ (ASSERT _ _) => apply keeps_ASSERT
  | |- keeps _ (deref _) => apply keeps_deref
  end.

(** [initialize] never touches a gauge other than server.live. *)
Lemma initialize_keeps_gauge NDEBUG env name x :
  name ≠ "server.live" ->
  keeps (fun s => server_stats_ s !! name = Some x) (initialize NDEBUG env).
Proof.
  intros Hname.
  assert (Hflags : forall o, keeps (fun s => server_stats_ s !! name = Some x)
                               (loadServerFlags env o)).
  { intros [path|]; [|apply keeps_ret]. simpl.
    apply keeps_bind; [apply keeps_emit | intros _].
    destruct (fileExists env _); [|apply keeps_ret].
    apply keeps_bind; [apply keeps_emit | intros _].
    apply keeps_modify. intros s Hs. simpl.
    rewrite lookup_insert_ne by congruence. exact Hs. }
  assert (Hsink : forall k, keeps (fun s => server_stats_ s !! name = Some x) (add_sink k)).
  { intros k. apply keeps_bind; [|intros _; apply keeps_emit].
    apply keeps_modify. intros s Hs. exact Hs. }
  unfold initialize. repeat keeps_step.
  - destruct (load_initial env); keeps_step.
  - apply Hflags.
  - unfold new_worker. repeat keeps_step.
  - destruct (load_main env); keeps_step.
  - unfold listen_socket. repeat keeps_step.
    destruct (bool_decide _); repeat keeps_step.
  - unfold initializeStatSinks. repeat keeps_step.
    + match goal with
      | |- context [statsdUdpIpAddress ?c] =>
          destruct (statsdUdpIpAddress c), (statsdUdpPort c)
      end; repeat keeps_step; apply Hsink.
    + match goal with
      | |- context [statsdTcpClusterName ?c] => destruct (statsdTcpClusterName c)
      end; repeat keeps_step. apply Hsink.
Qed.

(** *** Hexadecimal prefixes *)

Lemma hex_digit_range c d : hex_digit c = Some d -> 0 <= d < 16.
Proof.
  unfold hex_digit.
  destruct (_ && _) eqn:H1; [intros [= <-]; lia|].
  destruct (_ && _) eqn:H2 in |- *; [intros [= <-]; lia|].
  destruct (_ && _) eqn:H3 in |- *; [intros [= <-]; lia | discriminate].
Qed.

Lemma hex_value_bound s : forall acc v,
  0 <= acc -> hex_value acc s = Some v ->
  acc * 16 ^ Z.of_nat (String.length s) <= v < (acc + 1) * 16 ^ Z.of_nat (String.length s).
Proof.
  induction s as [|c s IH]; intros acc v Hacc; simpl hex_value.
  - intros [= <-]. simpl. lia.
  - destruct (hex_digit c) as [d|] eqn:Hd; [|discriminate].
    apply hex_digit_range in Hd. intros Hv.
    apply IH in Hv; [|lia].
    change (String.length (String c s)) with (S (String.length s)).
    rewrite Nat2Z.inj_succ, Z.pow_succ_r by lia.
    assert (0 < 16 ^ Z.of_nat (String.length s)) by (apply Z.pow_pos_nonneg; lia).
    nia.
Qed.

Lemma hex_value_none s : forall acc,
  hex_value acc s = None <->
  Exists (fun c => hex_digit c = None) (list_ascii_of_string s).
Proof.
  induction s as [|c s IH]; intros acc; simpl.
  - split; [discriminate | intros H; inversion H].
  - rewrite Exists_cons. destruct (hex_digit c) as [d|] eqn:Hd.
    + rewrite IH. split; [right; exact H | intros [H|H]; [discriminate | exact H]].
      Unshelve. all: auto.
    + split; [left; reflexivity | reflexivity].
Qed.

Lemma substring_length_le n : forall s, (String.length (substring 0 n s) <= n)%nat.
Proof.
  induction n as [|n IH]; intros [|c s]; simpl; try lia.
  specialize (IH s). lia.
Qed.

(** The value of six hexadecimal digits. *)
Lemma atoul_six_digits c0 c1 c2 c3 c4 c5 d0 d1 d2 d3 d4 d5 rest :
  hex_digit c0 = Some d0 -> hex_digit c1 = Some d1 -> hex_digit c2 = Some d2 ->
  hex_digit c3 = Some d3 -> hex_digit c4 = Some d4 -> hex_digit c5 = Some d5 ->
  atoul (substring 0 6
           (String c0 (String c1 (String c2 (String c3 (String c4 (String c5 rest))))))) =
  Some (d0 * 16 ^ 5 + d1 * 16 ^ 4 + d2 * 16 ^ 3 + d3 * 16 ^ 2 + d4 * 16 + d5).
Proof.
  intros H0 H1 H2 H3 H4 H5.
  assert (Hs : substring 0 6
           (String c0 (String c1 (String c2 (String c3 (String c4 (String c5 rest)))))) =
           String c0 (String c1 (String c2 (String c3 (String c4 (String c5 EmptyString)))))).
  { simpl. destruct rest; reflexivity. }
  rewrite Hs. unfold atoul. simpl hex_value. rewrite H0, H1, H2, H3, H4, H5.
  apply hex_digit_range in H0, H1, H2, H3, H4, H5.
  destruct (_ <? _) eqn:Hlt.
  - f_equal. lia.
  - apply Z.ltb_ge in Hlt. lia.
Qed.

(** *** Construction *)

(** C7: when the first six characters of the build SHA parse as a
    hexadecimal number, the constructor publishes that number, which is
    below 2^24, as server.version, and the gauge still holds it however the
    rest of the construction ends; when they do not parse (the prefix is
    empty or has a character that is no hexadecimal digit) the constructor
    throws EnvoyException at once, before any collaborator is called. *)
Theorem version_stat_or_throw (NDEBUG : bool) (env : Env) :
  match atoul (substring 0 6 (revision env)) with
  | Some v =>
      0 <= v < 2 ^ 24 /\
      hex_value 0 (substring 0 6 (revision env)) = Some v /\
      gauge "server.version" (obj (construct NDEBUG env (start env)).2) = v
  | None =>
      (substring 0 6 (revision env) = "" \/
       Exists (fun c => hex_digit c = None)
         (list_ascii_of_string (substring 0 6 (revision env)))) /\
      construct NDEBUG env (start env) =
        (Halt (Thrown (EnvoyException "compiled GIT SHA is invalid. Invalid build.")),
         mkWorld (set_server_stats {["server.live" := 1]} (fresh_instance env)) [])
  end.
Proof.
  pose proof (substring_length_le 6 (revision env)) as Hlen.
  destruct (atoul (substring 0 6 (revision env))) as [v|] eqn:Hsha.
  - assert (Hv : hex_value 0 (substring 0 6 (revision env)) = Some v).
    { unfold atoul in Hsha. destruct (substring 0 6 (revision env)); [discriminate|].
      destruct (hex_value 0 _) as [v'|]; [|discriminate].
      destruct (v' <? 2 ^ 64); congruence. }
    assert (Hrange : 0 <= v < 2 ^ 24).
    { apply hex_value_bound in Hv; [|lia].
      assert (16 ^ Z.of_nat (String.length (substring 0 6 (revision env))) <= 16 ^ 6)
        by (apply Z.pow_le_mono_r; lia).
      lia. }
    split; [exact Hrange|]. split; [exact Hv|].
    unfold construct. rewrite Hsha. unfold start, fresh_instance.
    do 2 step.
    match goal with
    | |- gauge _ (obj (?c ?W).2) = _ =>
        assert (Hkept : keeps (fun s => server_stats_ s !! "server.version" = Some v) c)
    end.
    { repeat keeps_step. apply keeps_try_catch.
      - apply initialize_keeps_gauge. discriminate.
      - intros e. repeat keeps_step. }
    unfold gauge. rewrite Hkept; [reflexivity|].
    cbn [obj server_stats_ set_server_stats]. rewrite lookup_insert_eq. f_equal.
    unfold uint64. apply Z.mod_small. lia.
  - split.
    + unfold atoul in Hsha.
      destruct (substring 0 6 (revision env)) as [|c s'] eqn:Hsub; [left; reflexivity|].
      right. apply (hex_value_none _ 0).
      destruct (hex_value 0 (String c s')) as [v'|] eqn:Hv; [|reflexivity].
      exfalso. apply hex_value_bound in Hv; [|lia].
      assert (16 ^ Z.of_nat (String.length (String c s')) <= 16 ^ 6)
        by (apply Z.pow_le_mono_r; lia).
      destruct (v' <? 2 ^ 64) eqn:Hlt; [discriminate|].
      apply Z.ltb_ge in Hlt. lia.
    + unfold construct. rewrite Hsha. reflexivity.
Qed.

(** The sample server: its constructor completes. *)
Lemma sample_constructed c :
  construct true (Sample.env c) (start (Sample.env c)) = (Ok tt, Sample.world c).
Proof. apply construct_ok; try reflexivity. left. reflexivity. Qed.

Lemma no_new_worker_outside_loop env ic mc e :
  e ∈ events_before_workers env ic ++ events_after_workers env mc ->
  is_new_worker e = false.
Proof.
  unfold events_before_workers, events_after_workers, flags_events, sink_events.
  rewrite !elem_of_app, !elem_of_cons, !elem_of_nil.
  intros H.
  repeat match goal with
         | H : _ \/ _ |- _ => destruct H as [H|H]
         | H : ?x = _ |- is_new_worker ?x = false => rewrite H; reflexivity
         | H : False |- _ => destruct H
         end.
  - destruct (flagsPath ic); [|inversion H].
    apply elem_of_cons in H as [->|H]; [reflexivity|].
    destruct (fileExists env _); [|inversion H].
    apply list_elem_of_singleton in H as ->. reflexivity.
  - apply list_elem_of_In, in_flat_map in H as (l & _ & H).
    unfold socket_events in H. destruct H as [<-|H]; [reflexivity|].
    destruct (bool_decide _); [|inversion H].
    destruct H as [<-|[]]. reflexivity.
  - destruct (statsdUdpIpAddress mc), (statsdUdpPort mc);
      repeat (apply elem_of_cons in H as [->|H]; [reflexivity|]); inversion H.
  - destruct (statsdTcpClusterName mc);
      repeat (apply elem_of_cons in H as [->|H]; [reflexivity|]); inversion H.
Qed.

Lemma no_register_thread_before_workers env ic e :
  e ∈ events_before_workers env ic -> is_register_thread e = false.
Proof.
  unfold events_before_workers, flags_events.
  rewrite !elem_of_app, !elem_of_cons, !elem_of_nil.
  intros H.
  repeat match goal with
         | H : _ \/ _ |- _ => destruct H as [H|H]
         | H : ?x = _ |- is_register_thread ?x = false => rewrite H; reflexivity
         | H : False |- _ => destruct H
         end.
  destruct (flagsPath ic); [|inversion H].
  apply elem_of_cons in H as [->|H]; [reflexivity|].
  destruct (fileExists env _); [|inversion H].
  apply list_elem_of_singleton in H as ->. reflexivity.
Qed.

(** C8, as the code has it: a construction that completes has built
    max(1, concurrency) distinct workers, one after the other, and all of
    them before the main thread is registered for thread-local updates. *)
Theorem workers_built_before_register_thread
    (NDEBUG : bool) (env : Env) (v : Z) (ic : InitialConfig) (mc : MainConfig) :
  atoul (substring 0 6 (revision env)) = Some v ->
  load_initial env = Some ic ->
  load_main env = Some mc ->
  Forall (fun l => type (address l) = Ip) (listeners mc) ->
  exists w pre post,
    construct NDEBUG env (start env) = (Ok tt, w) /\
    length (workers_ (obj w)) = N.to_nat (N.max 1 (concurrency env)) /\
    NoDup (workers_ (obj w)) /\
    out w = pre ++ (NewWorker <$> workers_ (obj w)) ++ ThreadLocalRegisterThread :: post /\
    (forall e, e ∈ pre ++ post -> is_new_worker e = false) /\
    (forall e, e ∈ pre -> is_register_thread e = false).
Proof.
  intros Hsha Hic Hmc Hip.
  exists (constructed env v ic mc), (events_before_workers env ic),
    (events_after_workers env mc).
  split; [apply construct_ok; auto|].
  cbn [constructed obj out workers_]. unfold worker_ids.
  split; [apply length_seq|]. split; [apply NoDup_seq|]. split; [reflexivity|].
  split; [apply no_new_worker_outside_loop | apply no_register_thread_before_workers].
Qed.

Lemma workers_built_before_register_thread_witness :
  exists w pre post,
    construct true (Sample.env 0) (start (Sample.env 0)) = (Ok tt, w) /\
    length (workers_ (obj w)) = N.to_nat (N.max 1 (concurrency (Sample.env 0))) /\
    NoDup (workers_ (obj w)) /\
    out w = pre ++ (NewWorker <$> workers_ (obj w)) ++ ThreadLocalRegisterThread :: post /\
    (forall e, e ∈ pre ++ post -> is_new_worker e = false) /\
    (forall e, e ∈ pre -> is_register_thread e = false).
Proof.
  apply (workers_built_before_register_thread true (Sample.env 0)
           Sample.version Sample.initial Sample.main).
  - reflexivity.
  - reflexivity.
  - reflexivity.
  - repeat constructor.
Defined.

(** C8 as stated fails: with the concurrency option at 0 the constructor
    still builds one worker. *)
Lemma workers_differ_from_concurrency_zero :
  construct true (Sample.env 0) (start (Sample.env 0)) = (Ok tt, Sample.world 0) /\
  concurrency (Sample.env 0) = 0%N /\
  workers_ (obj (Sample.world 0)) = [0%nat] /\
  length (workers_ (obj (Sample.world 0))) ≠ N.to_nat (concurrency (Sample.env 0)).
Proof.
  split; [apply sample_constructed|].
  split; [reflexivity|]. split; [reflexivity|]. simpl. lia.
Qed.

(** *** Health check *)

(** C9: once construction has completed, healthCheckFailed() answers true
    exactly when a flags path is configured and the file drain existed under
    it; healthCheckFailed() is true exactly when server.live reads 0, and
    failHealthcheck(fail) writes !fail into server.live. *)
Theorem health_check_follows_drain_file
    (NDEBUG : bool) (env : Env) (v : Z) (ic : InitialConfig) (mc : MainConfig) :
  atoul (substring 0 6 (revision env)) = Some v ->
  load_initial env = Some ic ->
  load_main env = Some mc ->
  Forall (fun l => type (address l) = Ip) (listeners mc) ->
  (exists w,
     construct NDEBUG env (start env) = (Ok tt, w) /\
     healthCheckFailed (obj w) =
       match flagsPath ic with
       | Some path => fileExists env (String.append path "/drain")
       | None => false
       end) /\
  (forall s, healthCheckFailed s = true <-> gauge "server.live" s = 0) /\
  (forall fail w,
     exists w', failHealthcheck fail w = (Ok tt, w') /\
                gauge "server.live" (obj w') = (if fail then 0 else 1) /\
                healthCheckFailed (obj w') = fail).
Proof.
  intros Hsha Hic Hmc Hip. split; [|split].
  - exists (constructed env v ic mc). split; [apply construct_ok; auto|].
    unfold healthCheckFailed, gauge. cbn [constructed obj server_stats_].
    unfold stats_constructed. fold (drain_flag env ic).
    destruct (drain_flag env ic).
    + rewrite lookup_insert_eq. reflexivity.
    + rewrite lookup_insert_ne by discriminate. rewrite lookup_insert_eq. reflexivity.
  - intros s. unfold healthCheckFailed. apply bool_decide_eq_true.
  - intros fail [s tr]. eexists. split; [reflexivity|].
    unfold healthCheckFailed, gauge. cbn [obj server_stats_ set_server_stats].
    rewrite lookup_insert_eq. destruct fail; split; reflexivity.
Qed.

Lemma health_check_follows_drain_file_witness :
  (exists w,
     construct true (Sample.env 2) (start (Sample.env 2)) = (Ok tt, w) /\
     healthCheckFailed (obj w) =
       match flagsPath Sample.initial with
       | Some path => fileExists (Sample.env 2) (String.append path "/drain")
       | None => false
       end) /\
  (forall s, healthCheckFailed s = true <-> gauge "server.live" s = 0) /\
  (forall fail w,
     exists w', failHealthcheck fail w = (Ok tt, w') /\
                gauge "server.live" (obj w') = (if fail then 0 else 1) /\
                healthCheckFailed (obj w') = fail).
Proof.
  apply (health_check_follows_drain_file true (Sample.env 2)
           Sample.version Sample.initial Sample.main).
  - reflexivity.
  - reflexivity.
  - reflexivity.
  - repeat constructor.
Defined.

(** *** Listen sockets *)

Section Sockets.
Variable env : Env.

Lemma sockets_from_fresh ls : forall m k,
  k ∉ get_ <$> ls -> sockets_from env m ls !! k = m !! k.
Proof.
  induction ls as [|l ls IH]; intros m k Hk; [reflexivity|].
  rewrite fmap_cons, not_elem_of_cons in Hk. destruct Hk as [Hne Hk].
  change (sockets_from env m (l :: ls))
    with (sockets_from env (<[get_ l := Some (socket_for env l)]> m) ls).
  rewrite IH by exact Hk. apply lookup_insert_ne. congruence.
Qed.

Lemma sockets_from_lookup ls : forall m l,
  NoDup (get_ <$> ls) -> l ∈ ls ->
  sockets_from env m ls !! get_ l = Some (Some (socket_for env l)).
Proof.
  induction ls as [|x ls IH]; intros m l Hnd Hin; [inversion Hin|].
  rewrite fmap_cons in Hnd. apply NoDup_cons in Hnd as [Hx Hnd].
  change (sockets_from env m (x :: ls))
    with (sockets_from env (<[get_ x := Some (socket_for env x)]> m) ls).
  apply elem_of_cons in Hin as [-> | Hin].
  - rewrite sockets_from_fresh by exact Hx. apply lookup_insert_eq.
  - apply IH; assumption.
Qed.

Lemma sockets_from_dom ls : forall m,
  dom (sockets_from env m ls) = dom m ∪ list_to_set (get_ <$> ls).
Proof.
  induction ls as [|x ls IH]; intros m.
  - simpl. rewrite (right_id_L ∅ (∪)). reflexivity.
  - change (sockets_from env m (x :: ls))
      with (sockets_from env (<[get_ x := Some (socket_for env x)]> m) ls).
    rewrite IH, dom_insert_L, fmap_cons. simpl.
    rewrite (comm_L (∪) {[get_ x]} (dom m)), (assoc_L (∪)). reflexivity.
Qed.

Lemma duplicate_requests_app tr1 tr2 :
  duplicate_requests (tr1 ++ tr2) = duplicate_requests tr1 ++ duplicate_requests tr2.
Proof. apply omap_app. Qed.

Lemma duplicate_requests_sockets ls :
  duplicate_requests (flat_map (socket_events env) ls) = tcp_url <$> ls.
Proof.
  induction ls as [|l ls IH]; [reflexivity|].
  change (flat_map (socket_events env) (l :: ls))
    with (socket_events env l ++ flat_map (socket_events env) ls).
  rewrite duplicate_requests_app, IH, fmap_cons.
  unfold socket_events. destruct (bool_decide _); reflexivity.
Qed.

Lemma duplicate_requests_workers ws : duplicate_requests (NewWorker <$> ws) = [].
Proof. induction ws as [|w ws IH]; [reflexivity | exact IH]. Qed.

Lemma duplicate_requests_constructed v ic mc :
  duplicate_requests (out (constructed env v ic mc)) = tcp_url <$> listeners mc.
Proof.
  cbn [constructed out]. unfold events_before_workers, events_after_workers.
  change (ThreadLocalRegisterThread :: ?l) with ([ThreadLocalRegisterThread] ++ l).
  rewrite !duplicate_requests_app, duplicate_requests_sockets,
    duplicate_requests_workers.
  assert (Hflags : duplicate_requests (flags_events env ic) = []).
  { unfold flags_events. destruct (flagsPath ic); [|reflexivity].
    destruct (fileExists env _); reflexivity. }
  assert (Hsinks : duplicate_requests (sink_events mc) = []).
  { unfold sink_events.
    destruct (statsdUdpIpAddress mc), (statsdUdpPort mc), (statsdTcpClusterName mc);
      reflexivity. }
  rewrite Hflags, Hsinks. simpl. rewrite app_nil_r. reflexivity.
Qed.
End Sockets.

(** C6: when construction completes, the server has asked the restarter
    once per configured (IP) listener, in order, with tcp:// followed by the
    listener's address; socket_map_ holds for each listener, under the
    listener's pointer, the socket wrapping the descriptor the parent gave
    when that is not -1 and a freshly bound socket otherwise; and the map
    has exactly one entry per listener and no other entry. *)
Theorem listen_sockets_inherited_or_bound
    (NDEBUG : bool) (env : Env) (v : Z) (ic : InitialConfig) (mc : MainConfig) :
  atoul (substring 0 6 (revision env)) = Some v ->
  load_initial env = Some ic ->
  load_main env = Some mc ->
  Forall (fun l => type (address l) = Ip) (listeners mc) ->
  NoDup (get_ <$> listeners mc) ->
  exists w,
    construct NDEBUG env (start env) = (Ok tt, w) /\
    duplicate_requests (out w) =
      (fun l => String.append "tcp://" (asString (address l))) <$> listeners mc /\
    (forall l, l ∈ listeners mc ->
       let fd := duplicateParentListenSocket env
                   (String.append "tcp://" (asString (address l))) in
       (fd ≠ -1 ->
        socket_map_ (obj w) !! get_ l = Some (Some (TcpListenSocketFd fd (address l)))) /\
       (fd = -1 ->
        socket_map_ (obj w) !! get_ l =
          Some (Some (TcpListenSocketBind (address l) (bindToPort l))))) /\
    dom (socket_map_ (obj w)) = list_to_set (get_ <$> listeners mc) /\
    size (socket_map_ (obj w)) = length (listeners mc).
Proof.
  intros Hsha Hic Hmc Hip Hnd.
  exists (constructed env v ic mc).
  split; [apply construct_ok; auto|].
  split; [apply duplicate_requests_constructed|].
  assert (Hdom : dom (socket_map_ (obj (constructed env v ic mc))) =
                 list_to_set (get_ <$> listeners mc)).
  { cbn [constructed obj socket_map_]. rewrite sockets_from_dom, dom_empty_L.
    apply (left_id_L ∅ (∪)). }
  split; [|split; [exact Hdom|]].
  - intros l Hl fd. cbn [constructed obj socket_map_].
    rewrite (sockets_from_lookup env _ _ l Hnd Hl).
    unfold socket_for, tcp_url. fold fd. split; intros Hfd.
    + rewrite bool_decide_eq_true_2 by exact Hfd. reflexivity.
    + rewrite bool_decide_eq_false_2 by (intros Hne; apply Hne, Hfd). reflexivity.
  - rewrite <- size_dom, Hdom, size_list_to_set by exact Hnd.
    apply length_fmap.
Qed.

Lemma listen_sockets_inherited_or_bound_witness :
  exists w,
    construct true (Sample.env 2) (start (Sample.env 2)) = (Ok tt, w) /\
    duplicate_requests (out w) =
      (fun l => String.append "tcp://" (asString (address l))) <$> listeners Sample.main /\
    (forall l, l ∈ listeners Sample.main ->
       let fd := duplicateParentListenSocket (Sample.env 2)
                   (String.append "tcp://" (asString (address l))) in
       (fd ≠ -1 ->
        socket_map_ (obj w) !! get_ l = Some (Some (TcpListenSocketFd fd (address l)))) /\
       (fd = -1 ->
        socket_map_ (obj w) !! get_ l =
          Some (Some (TcpListenSocketBind (address l) (bindToPort l))))) /\
    dom (socket_map_ (obj w)) = list_to_set (get_ <$> listeners Sample.main) /\
    size (socket_map_ (obj w)) = length (listeners Sample.main).
Proof.
  apply (listen_sockets_inherited_or_bound true (Sample.env 2)
           Sample.version Sample.initial Sample.main).
  - reflexivity.
  - reflexivity.
  - reflexivity.
  - repeat constructor.
  - apply (bool_decide_unpack _). vm_compute. exact I.
Defined.

(** C10: getListenSocketByIndex always returns; for an index at or beyond
    the number of configured listeners it returns a null pointer and leaves
    the server as it was; for a smaller index the index-th listener exists
    and the result is what socket_map_ holds under that listener's pointer
    (a null pointer, which operator[] then stores, when it holds nothing). *)
Theorem getListenSocketByIndex_in_bounds
    (index : N) (s : InstanceImpl) (tr : list Event) (config : MainConfig) :
  config_ s = Some config ->
  ((N.to_nat index >= length (listeners config))%nat ->
   getListenSocketByIndex index (mkWorld s tr) = (Ok None, mkWorld s tr)) /\
  ((N.to_nat index < length (listeners config))%nat ->
   exists it,
     listeners config !! N.to_nat index = Some it /\
     getListenSocketByIndex index (mkWorld s tr) =
       (Ok (default None (socket_map_ s !! get_ it)),
        mkWorld (match socket_map_ s !! get_ it with
                 | Some _ => s
                 | None => set_socket_map (<[get_ it := None]> (socket_map_ s)) s
                 end) tr)).
Proof.
  intros Hc. unfold getListenSocketByIndex.
  split; intros Hidx.
  - step. rewrite Hc. step.
    destruct (index <? _)%N eqn:Hlt; [|reflexivity].
    apply N.ltb_lt in Hlt. lia.
  - destruct (lookup_lt_is_Some_2 (listeners config) (N.to_nat index) Hidx) as [it Hit].
    exists it. split; [exact Hit|].
    step. rewrite Hc. step.
    destruct (index <? _)%N eqn:Hlt; [|apply N.ltb_ge in Hlt; lia].
    rewrite Hit. destruct (socket_map_ s !! get_ it) as [socket|]; reflexivity.
Qed.

Lemma getListenSocketByIndex_in_bounds_witness :
  ((N.to_nat 1 >= length (listeners Sample.main))%nat ->
   getListenSocketByIndex 1 (mkWorld (obj (Sample.world 2)) []) =
     (Ok None, mkWorld (obj (Sample.world 2)) [])) /\
  ((N.to_nat 1 < length (listeners Sample.main))%nat ->
   exists it,
     listeners Sample.main !! N.to_nat 1 = Some it /\
     getListenSocketByIndex 1 (mkWorld (obj (Sample.world 2)) []) =
       (Ok (default None (socket_map_ (obj (Sample.world 2)) !! get_ it)),
        mkWorld (match socket_map_ (obj (Sample.world 2)) !! get_ it with
                 | Some _ => obj (Sample.world 2)
                 | None => set_socket_map
                             (<[get_ it := None]> (socket_map_ (obj (Sample.world 2))))
                             (obj (Sample.world 2))
                 end) [])).
Proof.
  apply (getListenSocketByIndex_in_bounds 1 (obj (Sample.world 2)) [] Sample.main).
  reflexivity.
Defined.

(** *** Starting the workers *)

Lemma start_worker_run env worker (w : World InstanceImpl Event) :
  try_catch (initializeConfiguration env worker) is_CreateListenerException
    (fun _ =>
       emit (Log critical "shutting down due to error initializing worker configuration: {}") >>
       shutdown) w =
  (Ok tt, mkWorld (obj w) (out w ++ worker_start_events env worker)).
Proof.
  destruct w as [s tr].
  unfold try_catch, initializeConfiguration, worker_start_events, shutdown.
  step. destruct (worker_listens env worker).
  - reflexivity.
  - unfold halt. cbn [is_CreateListenerException]. repeat step.
    unfold emit. cbn [obj out]. rewrite <- !app_assoc. reflexivity.
Qed.

Lemma start_workers_loop_run env ws : forall w : World InstanceImpl Event,
  for_each ws (fun worker =>
    try_catch (initializeConfiguration env worker) is_CreateListenerException
      (fun _ =>
         emit (Log critical "shutting down due to error initializing worker configuration: {}") >>
         shutdown)) w =
  (Ok tt, mkWorld (obj w) (out w ++ flat_map (worker_start_events env) ws)).
Proof.
  induction ws as [|worker ws IH]; intros [s tr].
  - simpl. unfold ret. rewrite app_nil_r. reflexivity.
  - simpl for_each. erewrite bind_run by apply start_worker_run.
    rewrite IH. cbn [obj out flat_map]. rewrite <- app_assoc. reflexivity.
Qed.

(** [startWorkers] always returns, goes through every worker, and ends by
    draining the parent, whatever happened to the workers. *)
Lemma startWorkers_run env (w : World InstanceImpl Event) :
  startWorkers env w =
  (Ok tt,
   mkWorld (obj w)
     (out w ++ [Log warn "all dependencies initialized. starting workers"] ++
      flat_map (worker_start_events env) (workers_ (obj w)) ++
      [RestarterDrainParentListeners; DrainManagerStartParentShutdownSequence;
       HooksOnServerInitialized])).
Proof.
  destruct w as [s tr]. unfold startWorkers. step.
  erewrite bind_run; cycle 1.
  { step. apply start_workers_loop_run. }
  repeat step. unfold emit. cbn [obj out]. rewrite <- !app_assoc. reflexivity.
Qed.

(** C4: the sample server, whose worker 0 cannot listen: startWorkers
    initializes both workers, catches the exception of worker 0, logs it and
    calls shutdown(), which sends SIGTERM to the process, and then drains
    the parent's listeners and starts the parent shutdown sequence all the
    same, although a worker failed. *)
Theorem startWorkers_drains_parent_after_failure :
  worker_listens (Sample.env 2) 0%nat = false /\
  startWorkers (Sample.env 2) (Sample.world 2) =
  (Ok tt,
   mkWorld (obj (Sample.world 2))
     (out (Sample.world 2) ++
      [Log warn "all dependencies initialized. starting workers";
       WorkerInitializeConfiguration 0%nat;
       Log critical "shutting down due to error initializing worker configuration: {}";
       Log warn "shutdown invoked. sending SIGTERM to self";
       Kill SIGTERM;
       WorkerInitializeConfiguration 1%nat;
       RestarterDrainParentListeners;
       DrainManagerStartParentShutdownSequence;
       HooksOnServerInitialized])).
Proof. split; [reflexivity|]. rewrite startWorkers_run. reflexivity. Qed.

(** *** The main loop and what follows it *)

(** C5: run() logs, creates the main thread's watchdog, starts it and runs
    the dispatcher in Block mode; once the dispatcher has returned (having
    executed [dispatched]) it stops stats threading, calls exit() on every
    worker, flushes stats once if the flush timer exists and not at all
    otherwise, shuts the cluster manager down, closes the connections of the
    main handler and tears thread-local storage down, in this order; and
    shutdownAdmin leaves the server without flush timer. *)
Theorem run_order_and_final_flush
    (env : Env) (dispatched : Cmd unit) (w w1 : World InstanceImpl Event)
    (config : MainConfig) :
  dispatched
    (mkWorld (obj w)
       (out w ++ [Log warn "starting main dispatch loop"; GuardDogCreateWatchDog;
                  WatchDogStart; DispatcherRun Block])) = (Ok tt, w1) ->
  config_ (obj w1) = Some config ->
  run_loop dispatched w = (Ok tt, w1) /\
  (exists w2 flushed,
     run env dispatched w = (Ok tt, w2) /\
     out w2 =
       out w1 ++
       [Log warn "main dispatch loop exited"; GuardDogStopWatching;
        StatsShutdownThreading] ++
       (WorkerExit <$> workers_ (obj w1)) ++
       flushed ++
       [ClusterManagerShutdown; HandlerCloseConnections; ThreadLocalShutdownThread;
        Log warn "exiting"; LogFlush] /\
     flushed = match stat_flush_timer_ (obj w1) with
               | Some _ => flush_events env (obj w1) (statsFlushInterval config)
               | None => []
               end /\
     flushes flushed = match stat_flush_timer_ (obj w1) with
                       | Some _ => 1%nat
                       | None => 0%nat
                       end) /\
  (forall w', exists w'',
     shutdownAdmin w' = (Ok tt, w'') /\
     stat_flush_timer_ (obj w'') = None /\ config_ (obj w'') = config_ (obj w')).
Proof.
  intros Hloop Hconfig.
  assert (Hrun_loop : run_loop dispatched w = (Ok tt, w1)).
  { unfold run_loop. destruct w as [s tr]. cbn [obj out] in Hloop.
    repeat step. unfold emit in *. cbn [obj out].
    rewrite <- !app_assoc. cbn [app]. exact Hloop. }
  split; [exact Hrun_loop|]. split.
  - eexists _, _. split; [|split; [|split; [reflexivity|]]].
    + unfold run. erewrite bind_run by exact Hrun_loop.
      apply (run_exit_ok env w1 config Hconfig).
    + reflexivity.
    + destruct (stat_flush_timer_ (obj w1)); [apply flushes_flush_events | reflexivity].
  - intros w'. eexists. split; [apply shutdownAdmin_run|].
    destruct w' as [s tr]. split; reflexivity.
Qed.

Lemma run_order_and_final_flush_witness :
  run_loop shutdownAdmin (Sample.world 2) =
    (Ok tt,
     mkWorld (set_stat_flush_timer None (obj (Sample.world 2)))
       ((out (Sample.world 2) ++
         [Log warn "starting main dispatch loop"; GuardDogCreateWatchDog;
          WatchDogStart; DispatcherRun Block]) ++
        [Log warn "shutting down admin due to child startup"; HandlerCloseListeners;
         AdminSocketClose; Log warn "terminating parent process";
         RestarterTerminateParent])) /\
  (exists w2 flushed,
     run (Sample.env 2) shutdownAdmin (Sample.world 2) = (Ok tt, w2) /\
     out w2 =
       (out (Sample.world 2) ++
        [Log warn "starting main dispatch loop"; GuardDogCreateWatchDog;
         WatchDogStart; DispatcherRun Block;
         Log warn "shutting down admin due to child startup"; HandlerCloseListeners;
         AdminSocketClose; Log warn "terminating parent process";
         RestarterTerminateParent]) ++
       [Log warn "main dispatch loop exited"; GuardDogStopWatching;
        StatsShutdownThreading] ++
       (WorkerExit <$> [0%nat; 1%nat]) ++
       flushed ++
       [ClusterManagerShutdown; HandlerCloseConnections; ThreadLocalShutdownThread;
        Log warn "exiting"; LogFlush] /\
     flushed = [] /\
     flushes flushed = 0%nat) /\
  (forall w', exists w'',
     shutdownAdmin w' = (Ok tt, w'') /\
     stat_flush_timer_ (obj w'') = None /\ config_ (obj w'') = config_ (obj w')).
Proof.
  apply (run_order_and_final_flush (Sample.env 2) shutdownAdmin (Sample.world 2)
           (mkWorld (set_stat_flush_timer None (obj (Sample.world 2)))
              ((out (Sample.world 2) ++
                [Log warn "starting main dispatch loop"; GuardDogCreateWatchDog;
                 WatchDogStart; DispatcherRun Block]) ++
               [Log warn "shutting down admin due to child startup"; HandlerCloseListeners;
                AdminSocketClose; Log warn "terminating parent process";
                RestarterTerminateParent]))
           Sample.main).
  - apply shutdownAdmin_run.
  - reflexivity.
Defined.
End ServerFacts.

(** ** Facts kept through any command *)

Section Stable.
Context {St Ev : Type}.
Variable P : St -> Prop.

Lemma stable_ret {A} (a : A) : stable (Ev := Ev) P (ret a).
Proof. intros w H. exact H. Qed.

Lemma stable_halt {A} why : stable (Ev := Ev) P (halt (A := A) why).
Proof. intros w H. exact H. Qed.

Lemma stable_emit (e : Ev) : stable P (emit e).
Proof. intros w H. exact H. Qed.

Lemma stable_get : stable (Ev := Ev) P get.
Proof. intros w H. exact H. Qed.

Lemma stable_modify f : (forall s, P s -> P (f s)) -> stable (Ev := Ev) P (modify f).
Proof. intros Hf w H. apply Hf, H. Qed.

Lemma stable_bind {A B} (c : M St Ev A) (k : A -> M St Ev B) :
  stable P c -> (forall a, stable P (k a)) -> stable P (bind c k).
Proof.
  intros Hc Hk w H. unfold bind. specialize (Hc w H).
  destruct (c w) as [[a|why] w']; simpl in *; [apply Hk, Hc | exact Hc].
Qed.

Lemma stable_for_each {A} (xs : list A) (body : A -> M St Ev unit) :
  (forall x, stable P (body x)) -> stable P (for_each xs body).
Proof.
  intros Hb. induction xs as [|x xs IH]; [apply stable_ret|].
  simpl. apply stable_bind; [apply Hb | intros _; exact IH].
Qed.

Lemma stable_ASSERT ndebug cond : stable (Ev := Ev) P (ASSERT ndebug cond).
Proof. unfold ASSERT. destruct (ndebug || cond); [apply stable_ret | apply stable_halt]. Qed.

Lemma stable_try_catch {A} (c : M St Ev A) sel handler :
  stable P c -> (forall e, stable P (handler e)) -> stable P (try_catch c sel handler).
Proof.
  intros Hc Hh w H. unfold try_catch. specialize (Hc w H).
  destruct (c w) as [[a|[e| | | | | |]] w']; simpl in *; try exact Hc.
  destruct (sel e); [apply Hh, Hc | exact Hc].
Qed.
End Stable.

Ltac stable_step :=
  lazymatch goal with
  | |- stable _ (bind _ _) => apply stable_bind; [|intros ?]
  | |- stable _ (emit _) => apply stable_emit
  | |- stable _ (ret _) => apply stable_ret
  | |- stable _ (halt _) => apply stable_halt
  | |- stable _ get => apply stable_get
  | |- stable _ (for_each _ _) => apply stable_for_each; intros ?
  | |- stable _ (ASSERT _ _) => apply stable_ASSERT
  | |- stable _ (modify _) => apply stable_modify
  end.

(** ** The manager under arbitrary use *)

Module InitManagerMore.
Import StdList StdListFacts InitManager InitManagerOps InitManagerFacts.

Lemma invoke_stable P f : stable P (invoke f).
Proof. destruct f; simpl; repeat stable_step. Qed.

(** The loop keeps whatever every [target->initialize] keeps. *)
Lemma initialize_loop_stable P NDEBUG synchronous :
  (forall t, stable P (target_initialize NDEBUG synchronous t)) ->
  forall fuel it, stable P (initialize_loop NDEBUG synchronous fuel it).
Proof.
  intros Htarget. induction fuel as [|fuel IH]; intros [n|]; simpl;
    try apply stable_ret; try apply stable_halt.
  stable_step; [apply stable_get|].
  destruct (deref _ n); [|apply stable_halt].
  stable_step; [apply Htarget|].
  stable_step; [apply stable_get|].
  destruct (next _ n); [apply IH | apply stable_halt].
Qed.

Lemma target_callback_rank r NDEBUG t :
  stable (fun m => r <= rank (state_ m)) (target_callback NDEBUG t).
Proof.
  unfold target_callback. repeat stable_step.
  - intros m Hm. exact Hm.
  - destruct (StdList.empty _); repeat stable_step.
    + intros m Hm. destruct (state_ m); simpl in *; lia.
    + apply invoke_stable.
Qed.

Lemma target_initialize_rank r NDEBUG synchronous t :
  stable (fun m => r <= rank (state_ m)) (target_initialize NDEBUG synchronous t).
Proof.
  unfold target_initialize. repeat stable_step.
  destruct (synchronous t); [apply target_callback_rank | apply stable_ret].
Qed.

(** With assertions on, [initialize] outside NotInitialized stops at once. *)
Lemma initialize_rejected synchronous cb w :
  state_ (obj w) ≠ NotInitialized ->
  initialize false synchronous cb w = (Halt AssertFailure, w).
Proof.
  destruct w as [[st l f c] tr]. simpl. intros Hst.
  unfold initialize. unfold_cmd. simpl.
  rewrite bool_decide_eq_false_2 by exact Hst. reflexivity.
Qed.

Lemma registerTarget_rejected t w :
  state_ (obj w) ≠ NotInitialized ->
  registerTarget false t w = (Halt AssertFailure, w).
Proof.
  destruct w as [[st l f c] tr]. simpl. intros Hst.
  unfold registerTarget. unfold_cmd. simpl.
  rewrite bool_decide_eq_false_2 by exact Hst. reflexivity.
Qed.

Lemma do_op_rank r synchronous o :
  stable (fun m => r <= rank (state_ m)) (do_op false synchronous o).
Proof.
  destruct o as [t|cb|t]; simpl.
  - unfold registerTarget. repeat stable_step. intros m Hm. exact Hm.
  - intros w Hr. destruct (decide (state_ (obj w) = NotInitialized)) as [Hst|Hst].
    + rewrite Hst in Hr. simpl in Hr. lia.
    + rewrite initialize_rejected by exact Hst. exact Hr.
  - apply target_callback_rank.
Qed.

(** In a build with assertions, whatever is done to a manager, in whatever
    order and however each step ends, [state_] only moves forward through
    NotInitialized, Initializing, Initialized. *)
Theorem state_never_goes_back (synchronous : Target -> bool) (ops : list Op)
    (w : World InitManagerImpl Event) :
  rank (state_ (obj w)) <= rank (state_ (obj (run_ops false synchronous ops w).2)).
Proof.
  apply (stable_for_each (fun m => rank (state_ (obj w)) <= rank (state_ m))).
  - intros o. apply do_op_rank.
  - reflexivity.
Qed.

Lemma target_callback_consistent t : stable consistent (target_callback false t).
Proof.
  intros [[st l f cb] tr] Hc. unfold target_callback. unfold_cmd.
  cbn [obj out targets_ orb]. destruct (contains t l) eqn:Hin; [|exact Hc].
  simpl. destruct (remove t l) as [|p l'] eqn:Hrem; simpl.
  - destruct cb; reflexivity.
  - unfold consistent in *. simpl in *. destruct st.
    + exact Hc.
    + split; [discriminate | apply Hc].
    + subst l. unfold contains in Hin. apply bool_decide_eq_true in Hin. inversion Hin.
Qed.

Lemma target_initialize_consistent synchronous t :
  stable consistent (target_initialize false synchronous t).
Proof.
  unfold target_initialize. repeat stable_step.
  destruct (synchronous t); [apply target_callback_consistent | apply stable_ret].
Qed.

Lemma do_op_consistent synchronous o : stable consistent (do_op false synchronous o).
Proof.
  destruct o as [t|cb|t]; simpl.
  - intros w Hc. destruct (decide (state_ (obj w) = NotInitialized)) as [Hst|Hst].
    + destruct w as [[st l f c] tr]. simpl in Hst. subst st. exact Hc.
    + rewrite registerTarget_rejected by exact Hst. exact Hc.
  - intros w Hc. destruct (decide (state_ (obj w) = NotInitialized)) as [Hst|Hst].
    + destruct w as [[st l f c] tr]. simpl in Hst. subst st.
      unfold initialize. unfold_cmd. simpl.
      destruct l as [|p l]; [reflexivity|]. simpl StdList.empty. cbv iota.
      apply (initialize_loop_stable consistent false synchronous).
      * apply target_initialize_consistent.
      * unfold consistent. simpl. split; [discriminate | eexists; reflexivity].
    + rewrite initialize_rejected by exact Hst. exact Hc.
  - apply target_callback_consistent.
Qed.

(** In a build with assertions, whatever is done to a fresh manager: when
    [state_] is Initialized no target is pending, when it is Initializing
    some target is pending and the continuation is stored, and before
    [initialize] no continuation is stored. *)
Theorem manager_stays_consistent (synchronous : Target -> bool) (ops : list Op) :
  consistent (obj (run_ops false synchronous ops start).2).
Proof.
  apply (stable_for_each consistent).
  - intros o. apply do_op_consistent.
  - reflexivity.
Qed.

Lemma filter_pending (cs : list Target) (l : std_list Target) :
  (filter (fun p => p.2 ∉ cs) l).*2 = filter (fun t => t ∉ cs) (l.*2).
Proof.
  induction l as [|p l IH]; [reflexivity|].
  rewrite fmap_cons, !filter_cons.
  destruct (decide (p.2 ∉ cs)); [rewrite fmap_cons; f_equal; exact IH | exact IH].
Qed.

Lemma initialized_targets_app tr1 tr2 :
  initialized_targets (tr1 ++ tr2) = initialized_targets tr1 ++ initialized_targets tr2.
Proof. apply omap_app. Qed.

Lemma initialized_targets_initialize ts : initialized_targets (TargetInitialize <$> ts) = ts.
Proof. induction ts as [|t ts IH]; [reflexivity|]. simpl. f_equal. exact IH. Qed.

Lemma initialized_targets_completed cs : initialized_targets (TargetCompleted <$> cs) = [].
Proof. induction cs as [|c cs IH]; [reflexivity | exact IH]. Qed.

Lemma invocations_before_done done ts cs :
  invocations done ((TargetInitialize <$> ts) ++ (TargetCompleted <$> cs)) = 0.
Proof. rewrite invocations_app, !invocations_target_events by reflexivity. reflexivity. Qed.

(** While some registered target has not completed, the barrier waits: after
    the completions of any part of the targets, in any order, the manager is
    Initializing, its pending list holds exactly the registered targets that
    have not completed, in registration order, every target has been
    initialized once and the continuation has not run. *)
Theorem pending_after_partial_completion
    (NDEBUG : bool) (synchronous : Target -> bool)
    (ts cs : list Target) (done : Callback) :
  (forall t, t ∈ ts -> synchronous t = false) ->
  NoDup cs ->
  (forall c, c ∈ cs -> c ∈ ts) ->
  (exists t, t ∈ ts /\ t ∉ cs) ->
  exists w,
    barrier NDEBUG synchronous ts done cs start = (Ok tt, w) /\
    state_ (obj w) = Initializing /\
    (targets_ (obj w)).*2 = filter (fun t => t ∉ cs) ts /\
    initialized_targets (out w) = ts /\
    invocations done (out w) = 0.
Proof.
  intros Hsync Hnd Hsub (t0 & Ht0 & Hnot).
  unfold barrier, bind, start, new_manager.
  rewrite register_all_spec by reflexivity. cbn [app Nat.add].
  destruct ts as [|t ts]; [inversion Ht0|].
  rewrite (initialize_deferred NDEBUG synchronous t ts done Hsync).
  rewrite complete_all_spec; [| exact Hnd | | discriminate].
  - pose proof (filter_pending cs (nodes_for 0 (t :: ts))) as Hpending.
    rewrite nodes_for_snd in Hpending.
    destruct (filter (fun p => p.2 ∉ cs) (nodes_for 0 (t :: ts))) as [|p l'] eqn:Hf.
    + exfalso. simpl in Hpending.
      assert (Hin : t0 ∈ filter (fun x => x ∉ cs) (t :: ts))
        by (apply list_elem_of_filter; split; assumption).
      rewrite <- Hpending in Hin. inversion Hin.
    + eexists. split; [reflexivity|]. cbn [obj out state_ targets_].
      split; [reflexivity|]. split; [exact Hpending|].
      split; [|apply invocations_before_done].
      rewrite initialized_targets_app, initialized_targets_initialize,
        initialized_targets_completed, app_nil_r. reflexivity.
  - intros c Hc. rewrite nodes_for_snd. apply Hsub, Hc.
Qed.

Lemma pending_after_partial_completion_witness :
  exists w,
    barrier true (fun _ => false) [10; 20; 30] 7 [30; 10] start = (Ok tt, w) /\
    state_ (obj w) = Initializing /\
    (targets_ (obj w)).*2 = filter (fun t => t ∉ [30; 10]) [10; 20; 30] /\
    initialized_targets (out w) = [10; 20; 30] /\
    invocations 7 (out w) = 0.
Proof.
  apply (pending_after_partial_completion true (fun _ => false) [10; 20; 30] [30; 10] 7).
  - reflexivity.
  - apply (bool_decide_unpack _). vm_compute. exact I.
  - intros c. rewrite !elem_of_cons, !elem_of_nil. tauto.
  - exists 20. rewrite !elem_of_cons, !elem_of_nil. split; [tauto | lia].
Defined.


End InitManagerMore.

(** ** The server object: failures, sinks, statistics, sockets *)

Module ServerMoreFacts.
Import Server ServerMore ServerFacts.
Local Open Scope Z_scope.

Lemma bind_halt {St Ev A B} (m : M St Ev A) (k : A -> M St Ev B) w why w' :
  m w = (Halt why, w') -> bind m k w = (Halt why, w').
Proof. intros H. unfold bind. rewrite H. reflexivity. Qed.

(** *** A construction that does not complete *)

Lemma initialize_without_initial NDEBUG env w :
  load_initial env = None ->
  initialize NDEBUG env w =
  (Halt (Thrown (EnvoyException "unable to load configuration")),
   mkWorld (obj w) (out w ++ [Log warn "initializing epoch {} (hot restart version={})"])).
Proof.
  intros Hic. destruct w as [s tr]. unfold initialize. rewrite Hic.
  step. reflexivity.
Qed.

Lemma initialize_without_main NDEBUG env st tr ic :
  load_initial env = Some ic ->
  load_main env = None ->
  initialize NDEBUG env (mkWorld (mkInstance (start_time env) st [] ∅ None [] None) tr) =
  (Halt (Thrown (EnvoyException "invalid configuration")),
   mkWorld
     (mkInstance (default (start_time env) (parent_start_time env))
        (if drain_flag env ic then <["server.live" := uint64 0]> st else st)
        (worker_ids env) ∅ (Some blank_config) [] None)
     (tr ++ [Log warn "initializing epoch {} (hot restart version={})";
             Log info "admin address: {}"; RestarterShutdownParentAdmin; NewAdmin;
             HandlerAddListener] ++ flags_events env ic ++
      (NewWorker <$> worker_ids env) ++
      [ThreadLocalRegisterThread; StatsInitializeThreading; CreateRuntime;
       NewSslContextManager; NewClusterManagerFactory])).
Proof.
  intros Hic Hmc. unfold initialize. rewrite Hic, Hmc.
  repeat step.
  erewrite bind_run by apply loadServerFlags_run.
  erewrite bind_run by apply new_workers_run.
  repeat step.
  unfold bind, halt, worker_ids.
  destruct (drain_flag env ic); cbn [obj out set_workers set_server_stats
      original_start_time_ server_stats_ workers_ socket_map_ config_ stat_sinks_
      stat_flush_timer_ app];
    rewrite <- ?app_assoc; cbn [app]; reflexivity.
Qed.

Lemma no_signal_handler_workers ws :
  List.filter is_signal_handler (NewWorker <$> ws) = [].
Proof. induction ws as [|w ws IH]; [reflexivity | exact IH]. Qed.

Lemma no_signal_handler_flags env ic :
  List.filter is_signal_handler (flags_events env ic) = [].
Proof.
  unfold flags_events. destruct (flagsPath ic); [|reflexivity].
  destruct (fileExists env _); reflexivity.
Qed.

Lemma duplicate_requests_flags env ic : duplicate_requests (flags_events env ic) = [].
Proof.
  unfold flags_events. destruct (flagsPath ic); [|reflexivity].
  destruct (fileExists env _); reflexivity.
Qed.

(** When the configuration cannot be loaded (the file itself, or its main
    part), the constructor logs the error, tears thread-local storage down and
    exits with status 1; it has asked the parent for no socket, bound none,
    installed no signal handler and created no flush timer, and when the file
    itself could not be loaded no worker was built either. *)
Theorem construct_exits_on_bad_configuration (NDEBUG : bool) (env : Env) (v : Z) :
  atoul (substring 0 6 (revision env)) = Some v ->
  load_initial env = None \/ load_main env = None ->
  exists w pre,
    construct NDEBUG env (start env) = (Halt (ProcessExit 1), w) /\
    out w = pre ++ [Log critical "error initializing configuration '{}': {}";
                    ThreadLocalShutdownThread] /\
    socket_map_ (obj w) = ∅ /\
    stat_flush_timer_ (obj w) = None /\
    duplicate_requests (out w) = [] /\
    List.filter is_signal_handler (out w) = [] /\
    (load_initial env = None -> workers_ (obj w) = []).
Proof.
  intros Hsha Hbad.
  unfold construct, start, fresh_instance. rewrite Hsha. repeat step.
  unfold try_catch. exec.
  destruct (load_initial env) as [ic|] eqn:Hic.
  - destruct Hbad as [Hbad|Hmc]; [discriminate|].
    rewrite (initialize_without_main NDEBUG env _ _ ic Hic Hmc).
    exec.
    eexists _, _. split; [reflexivity|].
    split; [rewrite <- app_assoc; reflexivity|].
    split; [reflexivity|]. split; [reflexivity|].
    rewrite !duplicate_requests_app, !List.filter_app,
      duplicate_requests_flags, duplicate_requests_workers,
      no_signal_handler_flags, no_signal_handler_workers.
    split; [reflexivity|]. split; [reflexivity | discriminate].
  - rewrite (initialize_without_initial NDEBUG env _ Hic).
    exec.
    eexists _, _. split; [reflexivity|].
    split; [rewrite <- app_assoc; reflexivity|].
    repeat split; reflexivity.
Qed.

Lemma construct_exits_on_bad_configuration_witness :
  exists w pre,
    construct true env_without_config (start env_without_config) =
      (Halt (ProcessExit 1), w) /\
    out w = pre ++ [Log critical "error initializing configuration '{}': {}";
                    ThreadLocalShutdownThread] /\
    socket_map_ (obj w) = ∅ /\
    stat_flush_timer_ (obj w) = None /\
    duplicate_requests (out w) = [] /\
    List.filter is_signal_handler (out w) = [] /\
    (load_initial env_without_config = None -> workers_ (obj w) = []).
Proof.
  apply (construct_exits_on_bad_configuration true env_without_config Sample.version).
  - reflexivity.
  - left. reflexivity.
Defined.

(** *** A listener that is not an IP listener *)

Lemma listen_socket_asserts env l w :
  type (address l) ≠ Ip ->
  listen_socket false env l w = (Halt AssertFailure, w).
Proof.
  intros Hl. unfold listen_socket, ASSERT.
  rewrite bool_decide_eq_false_2 by exact Hl. reflexivity.
Qed.

Lemma listen_sockets_assert env pre l post : forall w,
  Forall (fun x => type (address x) = Ip) pre ->
  type (address l) ≠ Ip ->
  for_each (pre ++ l :: post) (listen_socket false env) w =
  (Halt AssertFailure,
   mkWorld (set_socket_map (sockets_from env (socket_map_ (obj w)) pre) (obj w))
     (out w ++ flat_map (socket_events env) pre)).
Proof.
  induction pre as [|x pre IH]; intros [s tr] Hpre Hl.
  - simpl app. simpl for_each. erewrite bind_halt by (apply listen_socket_asserts; exact Hl).
    destruct s. simpl. rewrite app_nil_r. reflexivity.
  - apply Forall_cons in Hpre as [Hx Hpre].
    change (for_each ((x :: pre) ++ l :: post) (listen_socket false env) (mkWorld s tr))
      with (bind (listen_socket false env x)
              (fun _ => for_each (pre ++ l :: post) (listen_socket false env)) (mkWorld s tr)).
    erewrite bind_run by (apply listen_socket_run; right; exact Hx).
    rewrite IH by assumption.
    cbn [obj out set_socket_map socket_map_ flat_map]. rewrite <- app_assoc.
    destruct s. reflexivity.
Qed.

(** With assertions on, the constructor stops at the first listener that is
    not an IP listener. *)
Lemma construct_asserts env v ic mc pre l post :
  atoul (substring 0 6 (revision env)) = Some v ->
  load_initial env = Some ic ->
  load_main env = Some mc ->
  listeners mc = pre ++ l :: post ->
  Forall (fun x => type (address x) = Ip) pre ->
  type (address l) ≠ Ip ->
  exists tr,
    construct false env (start env) =
    (Halt AssertFailure,
     mkWorld
       (mkInstance (default (start_time env) (parent_start_time env))
          (stats_constructed env v ic) (worker_ids env) (sockets_from env ∅ pre)
          (Some mc) [] None) tr).
Proof.
  intros Hsha Hic Hmc Hls Hpre Hl.
  unfold construct, start, fresh_instance. rewrite Hsha. repeat step.
  unfold try_catch, initialize. rewrite Hic, Hmc.
  repeat step.
  erewrite bind_run by apply loadServerFlags_run.
  erewrite bind_run by apply new_workers_run.
  repeat step. rewrite Hls.
  erewrite bind_halt by (apply listen_sockets_assert; assumption).
  unfold stats_constructed, worker_ids. fold (drain_flag env ic).
  destruct (drain_flag env ic);
    cbn [obj out set_workers set_server_stats set_socket_map set_config
      original_start_time_ server_stats_ workers_ socket_map_ config_ stat_sinks_
      stat_flush_timer_ app];
    eexists; reflexivity.
Qed.

(** A listener on a pipe among the configured listeners: a build with
    assertions stops the construction there, with sockets stored for the
    listeners before it only and no flush timer; a build without assertions
    completes the construction and stores a TCP listen socket for that
    listener like for any other. *)
Theorem non_ip_listener_asserts_or_binds
    (env : Env) (v : Z) (ic : InitialConfig) (mc : MainConfig)
    (pre post : list Listener) (l : Listener) :
  atoul (substring 0 6 (revision env)) = Some v ->
  load_initial env = Some ic ->
  load_main env = Some mc ->
  listeners mc = pre ++ l :: post ->
  Forall (fun x => type (address x) = Ip) pre ->
  type (address l) ≠ Ip ->
  NoDup (get_ <$> listeners mc) ->
  (exists w,
     construct false env (start env) = (Halt AssertFailure, w) /\
     socket_map_ (obj w) = sockets_from env ∅ pre /\
     socket_map_ (obj w) !! get_ l = None /\
     stat_flush_timer_ (obj w) = None) /\
  (exists w,
     construct true env (start env) = (Ok tt, w) /\
     socket_map_ (obj w) !! get_ l = Some (Some (socket_for env l))).
Proof.
  intros Hsha Hic Hmc Hls Hpre Hl Hnd. split.
  - destruct (construct_asserts env v ic mc pre l post Hsha Hic Hmc Hls Hpre Hl) as [tr Htr].
    eexists. split; [exact Htr|]. cbn [obj socket_map_].
    split; [reflexivity|]. split; [|reflexivity].
    rewrite sockets_from_fresh; [apply lookup_empty|].
    rewrite Hls, fmap_app, fmap_cons in Hnd.
    apply NoDup_app in Hnd as (_ & Hnd & _).
    intros Hin. apply (Hnd _ Hin). left.
  - exists (constructed env v ic mc).
    split; [apply construct_ok; auto|].
    cbn [constructed obj socket_map_].
    apply sockets_from_lookup; [exact Hnd|].
    rewrite Hls. apply elem_of_app. right. left.
Qed.

Lemma non_ip_listener_asserts_or_binds_witness :
  (exists w,
     construct false env_with_pipe (start env_with_pipe) = (Halt AssertFailure, w) /\
     socket_map_ (obj w) = sockets_from env_with_pipe ∅ [Sample.http] /\
     socket_map_ (obj w) !! get_ pipe = None /\
     stat_flush_timer_ (obj w) = None) /\
  (exists w,
     construct true env_with_pipe (start env_with_pipe) = (Ok tt, w) /\
     socket_map_ (obj w) !! get_ pipe = Some (Some (socket_for env_with_pipe pipe))).
Proof.
  apply (non_ip_listener_asserts_or_binds env_with_pipe Sample.version Sample.initial
           (mkMainConfig [Sample.http; pipe; Sample.https] None None None 5000)
           [Sample.http] [Sample.https] pipe).
  - reflexivity.
  - reflexivity.
  - reflexivity.
  - reflexivity.
  - repeat constructor.
  - discriminate.
  - apply (bool_decide_unpack _). vm_compute. exact I.
Defined.



(** *** Stat sinks *)

Lemma registered_sinks_app tr1 tr2 :
  registered_sinks (tr1 ++ tr2) = registered_sinks tr1 ++ registered_sinks tr2.
Proof. apply omap_app. Qed.

Lemma registered_sinks_workers ws : registered_sinks (NewWorker <$> ws) = [].
Proof. induction ws as [|w ws IH]; [reflexivity | exact IH]. Qed.

Lemma registered_sinks_flags env ic : registered_sinks (flags_events env ic) = [].
Proof.
  unfold flags_events. destruct (flagsPath ic); [|reflexivity].
  destruct (fileExists env _); reflexivity.
Qed.

Lemma registered_sinks_sockets env ls :
  registered_sinks (flat_map (socket_events env) ls) = [].
Proof.
  induction ls as [|l ls IH]; [reflexivity|].
  change (flat_map (socket_events env) (l :: ls))
    with (socket_events env l ++ flat_map (socket_events env) ls).
  rewrite registered_sinks_app, IH. unfold socket_events.
  destruct (bool_decide _); reflexivity.
Qed.

Lemma registered_sinks_constructed env v ic mc :
  registered_sinks (out (constructed env v ic mc)) = udp_sink mc ++ tcp_sink mc.
Proof.
  cbn [constructed out]. unfold events_before_workers, events_after_workers.
  change (ThreadLocalRegisterThread :: ?l) with ([ThreadLocalRegisterThread] ++ l).
  rewrite !registered_sinks_app, registered_sinks_sockets, registered_sinks_workers,
    registered_sinks_flags.
  unfold sink_events, udp_sink, tcp_sink.
  destruct (statsdUdpIpAddress mc), (statsdUdpPort mc), (statsdTcpClusterName mc);
    reflexivity.
Qed.

(** After construction, the sinks the server flushes to are the sinks it
    registered with the stats store, in the same order; there are at most
    two; a configured statsd UDP address gives a UDP sink on it and rules the
    deprecated local-port sink out; the local-port sink exists exactly when
    only the port is configured; the TCP sink exists exactly when a cluster
    name is configured. *)
Theorem sinks_follow_configuration
    (NDEBUG : bool) (env : Env) (v : Z) (ic : InitialConfig) (mc : MainConfig) :
  atoul (substring 0 6 (revision env)) = Some v ->
  load_initial env = Some ic ->
  load_main env = Some mc ->
  Forall (fun l => type (address l) = Ip) (listeners mc) ->
  exists w,
    construct NDEBUG env (start env) = (Ok tt, w) /\
    registered_sinks (out w) = stat_sinks_ (obj w) /\
    (length (stat_sinks_ (obj w)) <= 2)%nat /\
    (forall ip, UdpStatsdSink ip ∈ stat_sinks_ (obj w) <-> statsdUdpIpAddress mc = Some ip) /\
    (forall port, UdpStatsdSinkLocalPort port ∈ stat_sinks_ (obj w) <->
                  statsdUdpIpAddress mc = None /\ statsdUdpPort mc = Some port) /\
    (forall cluster, TcpStatsdSink cluster ∈ stat_sinks_ (obj w) <->
                     statsdTcpClusterName mc = Some cluster).
Proof.
  intros Hsha Hic Hmc Hip.
  exists (constructed env v ic mc).
  split; [apply construct_ok; auto|].
  split; [apply registered_sinks_constructed|].
  cbn [constructed obj stat_sinks_]. unfold udp_sink, tcp_sink.
  destruct (statsdUdpIpAddress mc) as [ip0|], (statsdUdpPort mc) as [port0|],
    (statsdTcpClusterName mc) as [cluster0|]; simpl;
    (split; [lia|]); repeat split; intros;
    repeat match goal with
           | H : _ ∈ _ :: _ |- _ => apply elem_of_cons in H as [H|H]
           | H : _ ∈ [] |- _ => inversion H
           | H : _ /\ _ |- _ => destruct H
           | H : Some _ = Some _ |- _ => injection H as ->
           | H : UdpStatsdSink _ = UdpStatsdSink _ |- _ => injection H as ->
           | H : UdpStatsdSinkLocalPort _ = UdpStatsdSinkLocalPort _ |- _ => injection H as ->
           | H : TcpStatsdSink _ = TcpStatsdSink _ |- _ => injection H as ->
           end;
    try discriminate; try reflexivity; try (split; reflexivity);
    rewrite ?elem_of_cons; auto.
Qed.

Lemma sinks_follow_configuration_witness :
  exists w,
    construct true (Sample.env 2) (start (Sample.env 2)) = (Ok tt, w) /\
    registered_sinks (out w) = stat_sinks_ (obj w) /\
    (length (stat_sinks_ (obj w)) <= 2)%nat /\
    (forall ip, UdpStatsdSink ip ∈ stat_sinks_ (obj w) <->
                statsdUdpIpAddress Sample.main = Some ip) /\
    (forall port, UdpStatsdSinkLocalPort port ∈ stat_sinks_ (obj w) <->
                  statsdUdpIpAddress Sample.main = None /\
                  statsdUdpPort Sample.main = Some port) /\
    (forall cluster, TcpStatsdSink cluster ∈ stat_sinks_ (obj w) <->
                     statsdTcpClusterName Sample.main = Some cluster).
Proof.
  apply (sinks_follow_configuration true (Sample.env 2)
           Sample.version Sample.initial Sample.main).
  - reflexivity.
  - reflexivity.
  - reflexivity.
  - repeat constructor.
Defined.

(** *** Workers *)







(** *** Connections *)

Lemma uint64_add_l a b : uint64 (uint64 a + b) = uint64 (a + b).
Proof. unfold uint64. apply Zplus_mod_idemp_l. Qed.

Lemma numConnections_from env ws : forall acc,
  foldl (fun num_connections worker =>
           match worker_connections env worker with
           | Some n => uint64 (num_connections + n)
           | None => num_connections
           end) (uint64 acc) ws =
  uint64 (acc + connections_sum env (rev ws)).
Proof.
  induction ws as [|w ws IH] using rev_ind; intros acc.
  - simpl. rewrite Z.add_0_r. reflexivity.
  - rewrite foldl_app, rev_app_distr. simpl. rewrite IH.
    destruct (worker_connections env w) as [n|]; simpl.
    + rewrite uint64_add_l. f_equal; lia.
    + f_equal; lia.
Qed.

Lemma connections_sum_rev env ws : connections_sum env (rev ws) = connections_sum env ws.
Proof.
  unfold connections_sum. induction ws as [|w ws IH]; [reflexivity|].
  simpl. rewrite foldr_app. simpl. rewrite <- IH.
  generalize (rev ws). intros l.
  induction l as [|x l IHl]; simpl; [lia|]. rewrite IHl. lia.
Qed.

(** [numConnections] is the sum of the connection counts of the workers that
    have a handler, reduced modulo 2^64 (a worker without handler counts for
    nothing), so it is the plain sum whenever that fits in 64 bits; and
    [getParentStats] reports exactly this number. *)
Theorem numConnections_is_wrapped_sum (env : Env) (s : InstanceImpl) :
  numConnections env s = uint64 (connections_sum env (workers_ s)) /\
  (0 <= connections_sum env (workers_ s) < 2 ^ 64 ->
   numConnections env s = connections_sum env (workers_ s)) /\
  0 <= numConnections env s < 2 ^ 64 /\
  (getParentStats env s).2 = numConnections env s.
Proof.
  assert (Hsum : numConnections env s = uint64 (connections_sum env (workers_ s))).
  { unfold numConnections. change 0 with (uint64 0) at 1.
    rewrite numConnections_from, connections_sum_rev. reflexivity. }
  split; [exact Hsum|]. split; [|split; [|reflexivity]].
  - intros Hfit. rewrite Hsum. unfold uint64. apply Z.mod_small. exact Hfit.
  - rewrite Hsum. unfold uint64. apply Z.mod_pos_bound. reflexivity.
Qed.

(** *** Flushing statistics *)

Lemma elem_of_counter_events sinks cs e :
  e ∈ flat_map (counter_events sinks) cs <->
  exists c sink, c ∈ cs /\ counter_used c = true /\ sink ∈ sinks /\
                 e = SinkFlushCounter sink (counter_name c) (counter_latch c).
Proof.
  rewrite list_elem_of_In, in_flat_map. split.
  - intros (c & Hc & He). unfold counter_events in He.
    destruct (counter_used c) eqn:Hused; [|inversion He].
    apply list_elem_of_In, list_elem_of_fmap in He as (sink & -> & Hsink).
    exists c, sink. rewrite list_elem_of_In. auto.
  - intros (c & sink & Hc & Hused & Hsink & ->). exists c.
    split; [apply list_elem_of_In, Hc|]. unfold counter_events. rewrite Hused.
    apply list_elem_of_In, list_elem_of_fmap. exists sink. auto.
Qed.

Lemma elem_of_gauge_events sinks gs e :
  e ∈ flat_map (gauge_events sinks) gs <->
  exists g sink, g ∈ gs /\ gauge_used g = true /\ sink ∈ sinks /\
                 e = SinkFlushGauge sink (gauge_name g) (gauge_value g).
Proof.
  rewrite list_elem_of_In, in_flat_map. split.
  - intros (g & Hg & He). unfold gauge_events in He.
    destruct (gauge_used g) eqn:Hused; [|inversion He].
    apply list_elem_of_In, list_elem_of_fmap in He as (sink & -> & Hsink).
    exists g, sink. rewrite list_elem_of_In. auto.
  - intros (g & sink & Hg & Hused & Hsink & ->). exists g.
    split; [apply list_elem_of_In, Hg|]. unfold gauge_events. rewrite Hused.
    apply list_elem_of_In, list_elem_of_fmap. exists sink. auto.
Qed.

(** One [flushStats] on a server with its flush timer: every sink receives
    the latched delta of every used counter and the value of every used
    gauge, nothing is flushed for a counter or gauge that was never used,
    nothing to a sink that is not in [stat_sinks_], the sinks and sockets of
    the server are not touched, and the last thing done is to re-arm the
    timer with the configured interval. *)
Theorem flushStats_feeds_used_stats_to_every_sink
    (env : Env) (w : World InstanceImpl Event) (timer : Timer) (config : MainConfig) :
  stat_flush_timer_ (obj w) = Some timer ->
  config_ (obj w) = Some config ->
  exists w' evs,
    flushStats env w = (Ok tt, w') /\
    out w' = out w ++ evs ++ [EnableTimer (statsFlushInterval config)] /\
    stat_sinks_ (obj w') = stat_sinks_ (obj w) /\
    socket_map_ (obj w') = socket_map_ (obj w) /\
    stat_flush_timer_ (obj w') = Some timer /\
    (forall sink name delta,
       SinkFlushCounter sink name delta ∈ evs <->
       sink ∈ stat_sinks_ (obj w) /\
       exists c, c ∈ store_counters env /\ counter_used c = true /\
                 name = counter_name c /\ delta = counter_latch c) /\
    (forall sink name value,
       SinkFlushGauge sink name value ∈ evs <->
       sink ∈ stat_sinks_ (obj w) /\
       exists g, g ∈ store_gauges env /\ gauge_used g = true /\
                 name = gauge_name g /\ value = gauge_value g).
Proof.
  intros Htimer Hconfig.
  exists (mkWorld (set_server_stats (stats_flushed env (obj w)) (obj w))
            (out w ++ flush_events env (obj w) (statsFlushInterval config))),
    ([Log debug "flushing stats"; RestarterGetParentStats] ++
     flat_map (counter_events (stat_sinks_ (obj w))) (store_counters env) ++
     flat_map (gauge_events (stat_sinks_ (obj w))) (store_gauges env)).
  split; [apply (flushStats_run env w timer config Htimer Hconfig)|].
  split; [cbn [out]; unfold flush_events; rewrite <- !app_assoc; reflexivity|].
  destruct w as [[t0 st ws sm cf sk tm] tr]. cbn [obj stat_flush_timer_] in Htimer.
  cbn [obj out set_server_stats stat_sinks_ socket_map_ stat_flush_timer_].
  split; [reflexivity|]. split; [reflexivity|]. split; [exact Htimer|]. split.
  - intros sink name delta.
    rewrite !elem_of_app, elem_of_counter_events, elem_of_gauge_events,
      !elem_of_cons, elem_of_nil. split.
    + intros [[H|[H|[]]] | [(c & k & Hc & Hused & Hk & He) | (g & k & _ & _ & _ & He)]];
        try discriminate.
      injection He as -> -> ->. split; [exact Hk | exists c; auto].
    + intros (Hk & c & Hc & Hused & -> & ->). right. left. exists c, sink. auto.
  - intros sink name value.
    rewrite !elem_of_app, elem_of_counter_events, elem_of_gauge_events,
      !elem_of_cons, elem_of_nil. split.
    + intros [[H|[H|[]]] | [(c & k & _ & _ & _ & He) | (g & k & Hg & Hused & Hk & He)]];
        try discriminate.
      injection He as -> -> ->. split; [exact Hk | exists g; auto].
    + intros (Hk & g & Hg & Hused & -> & ->). right. right. exists g, sink. auto.
Qed.

Lemma flushStats_feeds_used_stats_to_every_sink_witness :
  exists w' evs,
    flushStats (Sample.env 2) (Sample.world 2) = (Ok tt, w') /\
    out w' = out (Sample.world 2) ++ evs ++ [EnableTimer (statsFlushInterval Sample.main)] /\
    stat_sinks_ (obj w') = stat_sinks_ (obj (Sample.world 2)) /\
    socket_map_ (obj w') = socket_map_ (obj (Sample.world 2)) /\
    stat_flush_timer_ (obj w') = Some StatFlushTimer /\
    (forall sink name delta,
       SinkFlushCounter sink name delta ∈ evs <->
       sink ∈ stat_sinks_ (obj (Sample.world 2)) /\
       exists c, c ∈ store_counters (Sample.env 2) /\ counter_used c = true /\
                 name = counter_name c /\ delta = counter_latch c) /\
    (forall sink name value,
       SinkFlushGauge sink name value ∈ evs <->
       sink ∈ stat_sinks_ (obj (Sample.world 2)) /\
       exists g, g ∈ store_gauges (Sample.env 2) /\ gauge_used g = true /\
                 name = gauge_name g /\ value = gauge_value g).
Proof.
  apply (flushStats_feeds_used_stats_to_every_sink (Sample.env 2) (Sample.world 2)
           StatFlushTimer Sample.main).
  - reflexivity.
  - reflexivity.
Defined.

Lemma flushStats_without_timer env w :
  stat_flush_timer_ (obj w) = None ->
  flushStats env w =
  (Halt NullDereference,
   mkWorld (set_server_stats (stats_flushed env (obj w)) (obj w))
     (out w ++ [Log debug "flushing stats"; RestarterGetParentStats] ++
      flat_map (counter_events (stat_sinks_ (obj w))) (store_counters env) ++
      flat_map (gauge_events (stat_sinks_ (obj w))) (store_gauges env))).
Proof.
  destruct w as [[t0 st ws sm cf sk tm] tr]. cbn [obj stat_flush_timer_].
  intros ->. unfold flushStats, gauge_set.
  repeat step.
  erewrite bind_run by apply flush_counters_run.
  erewrite bind_run by apply flush_gauges_run.
  step. unfold stats_flushed. cbn.
  rewrite <- !app_assoc. reflexivity.
Qed.

(** [flushStats] needs the flush timer: on a server whose timer
    [shutdownAdmin] has reset, it still updates the gauges and feeds the
    sinks, and then follows the empty timer pointer instead of returning. *)
Theorem flushStats_after_shutdownAdmin_follows_null
    (env : Env) (w : World InstanceImpl Event) :
  (shutdownAdmin >> flushStats env) w =
  (Halt NullDereference,
   mkWorld (set_server_stats (stats_flushed env (obj w)) (set_stat_flush_timer None (obj w)))
     (out w ++
      [Log warn "shutting down admin due to child startup"; HandlerCloseListeners;
       AdminSocketClose; Log warn "terminating parent process"; RestarterTerminateParent;
       Log debug "flushing stats"; RestarterGetParentStats] ++
      flat_map (counter_events (stat_sinks_ (obj w))) (store_counters env) ++
      flat_map (gauge_events (stat_sinks_ (obj w))) (store_gauges env))).
Proof.
  erewrite bind_run by apply shutdownAdmin_run.
  rewrite flushStats_without_timer by (destruct w as [[] ?]; reflexivity).
  destruct w as [[t0 st ws sm cf sk tm] tr].
  cbn [obj out set_stat_flush_timer stat_sinks_]. unfold stats_flushed, numConnections.
  cbn [obj out set_stat_flush_timer original_start_time_ server_stats_ workers_].
  rewrite <- !app_assoc. reflexivity.
Qed.

Lemma atoul_range s v : atoul s = Some v -> 0 <= v < 2 ^ 64.
Proof.
  unfold atoul. destruct s as [|c s]; [discriminate|].
  destruct (hex_value 0 (String c s)) as [v'|] eqn:Hv; [|discriminate].
  destruct (v' <? 2 ^ 64) eqn:Hlt; [|discriminate].
  intros [= <-]. apply Z.ltb_lt in Hlt.
  apply hex_value_bound in Hv; [|lia].
  assert (0 <= 16 ^ Z.of_nat (String.length (String c s))) by (apply Z.pow_nonneg; lia).
  lia.
Qed.

(** The first flush after construction: server.uptime is counted from the
    start time of the parent when the parent reported one and from the
    server's own start otherwise, server.total_connections adds the parent's
    connections to the server's own, and the flush leaves server.version and
    the answer of the health check as the constructor set them. *)
Theorem first_flush_after_construction
    (NDEBUG : bool) (env : Env) (v : Z) (ic : InitialConfig) (mc : MainConfig) :
  atoul (substring 0 6 (revision env)) = Some v ->
  load_initial env = Some ic ->
  load_main env = Some mc ->
  Forall (fun l => type (address l) = Ip) (listeners mc) ->
  exists w,
    (construct NDEBUG env >> flushStats env) (start env) = (Ok tt, w) /\
    gauge "server.uptime" (obj w) =
      uint64 (flush_time env - default (start_time env) (parent_start_time env)) /\
    gauge "server.total_connections" (obj w) =
      uint64 (numConnections env (obj w) + parent_num_connections env) /\
    gauge "server.parent_connections" (obj w) = uint64 (parent_num_connections env) /\
    gauge "server.version" (obj w) = v /\
    healthCheckFailed (obj w) = drain_flag env ic.
Proof.
  intros Hsha Hic Hmc Hip.
  erewrite bind_run by (apply (construct_ok NDEBUG env v ic mc); auto).
  erewrite flushStats_run by reflexivity.
  eexists. split; [reflexivity|].
  unfold healthCheckFailed, gauge, stats_flushed, numConnections.
  cbn [constructed obj set_server_stats server_stats_ original_start_time_ workers_].
  repeat split.
  - do 5 (rewrite lookup_insert_ne by discriminate). rewrite lookup_insert_eq. reflexivity.
  - do 1 (rewrite lookup_insert_ne by discriminate). rewrite lookup_insert_eq. reflexivity.
  - do 2 (rewrite lookup_insert_ne by discriminate). rewrite lookup_insert_eq. reflexivity.
  - do 6 (rewrite lookup_insert_ne by discriminate). unfold stats_constructed.
    destruct (drain_flag env ic).
    + rewrite lookup_insert_ne by discriminate. rewrite lookup_insert_eq. simpl.
      unfold uint64. apply Z.mod_small. apply (atoul_range _ _ Hsha).
    + rewrite lookup_insert_eq. simpl.
      unfold uint64. apply Z.mod_small. apply (atoul_range _ _ Hsha).
  - do 6 (rewrite lookup_insert_ne by discriminate). unfold stats_constructed.
    destruct (drain_flag env ic).
    + rewrite lookup_insert_eq. reflexivity.
    + rewrite lookup_insert_ne by discriminate. rewrite lookup_insert_eq. reflexivity.
Qed.

Lemma first_flush_after_construction_witness :
  exists w,
    (construct true (Sample.env 2) >> flushStats (Sample.env 2)) (start (Sample.env 2)) =
      (Ok tt, w) /\
    gauge "server.uptime" (obj w) =
      uint64 (flush_time (Sample.env 2) -
              default (start_time (Sample.env 2)) (parent_start_time (Sample.env 2))) /\
    gauge "server.total_connections" (obj w) =
      uint64 (numConnections (Sample.env 2) (obj w) + parent_num_connections (Sample.env 2)) /\
    gauge "server.parent_connections" (obj w) =
      uint64 (parent_num_connections (Sample.env 2)) /\
    gauge "server.version" (obj w) = Sample.version /\
    healthCheckFailed (obj w) = drain_flag (Sample.env 2) Sample.initial.
Proof.
  apply (first_flush_after_construction true (Sample.env 2)
           Sample.version Sample.initial Sample.main).
  - reflexivity.
  - reflexivity.
  - reflexivity.
  - repeat constructor.
Defined.

(** *** The health check between calls of [failHealthcheck] *)





(** *** Looking sockets up after construction *)

(** After a successful construction whose listeners are distinct objects,
    [getListenSocketByIndex i] returns the socket that was made for the
    i-th configured listener and stores nothing, and the index one past the
    last listener gives a null pointer. *)
Theorem index_lookup_after_construction
    (NDEBUG : bool) (env : Env) (v : Z) (ic : InitialConfig) (mc : MainConfig)
    (i : nat) (l : Listener) :
  atoul (substring 0 6 (revision env)) = Some v ->
  load_initial env = Some ic ->
  load_main env = Some mc ->
  Forall (fun l => type (address l) = Ip) (listeners mc) ->
  NoDup (get_ <$> listeners mc) ->
  listeners mc !! i = Some l ->
  exists w,
    construct NDEBUG env (start env) = (Ok tt, w) /\
    getListenSocketByIndex (N.of_nat i) w = (Ok (Some (socket_for env l)), w) /\
    getListenSocketByIndex (N.of_nat (length (listeners mc))) w = (Ok None, w).
Proof.
  intros Hsha Hic Hmc Hip Hnd Hl.
  exists (constructed env v ic mc).
  split; [apply (construct_ok NDEBUG env v ic mc); auto|].
  assert (Hlt : (i < length (listeners mc))%nat) by (eapply lookup_lt_Some; exact Hl).
  unfold getListenSocketByIndex, constructed. split.
  - repeat step.
    replace (N.of_nat i <? N.of_nat (length (listeners mc)))%N with true
      by (symmetry; apply N.ltb_lt; lia).
    rewrite Nat2N.id, Hl.
    rewrite sockets_from_lookup; [reflexivity | exact Hnd |].
    eapply list_elem_of_lookup_2. exact Hl.
  - repeat step.
    rewrite N.ltb_irrefl. reflexivity.
Qed.

Lemma index_lookup_after_construction_witness :
  exists w,
    construct true (Sample.env 2) (start (Sample.env 2)) = (Ok tt, w) /\
    getListenSocketByIndex (N.of_nat 1) w =
      (Ok (Some (socket_for (Sample.env 2) Sample.https)), w) /\
    getListenSocketByIndex (N.of_nat (length (listeners Sample.main))) w = (Ok None, w).
Proof.
  apply (index_lookup_after_construction true (Sample.env 2)
           Sample.version Sample.initial Sample.main 1 Sample.https).
  - reflexivity.
  - reflexivity.
  - reflexivity.
  - repeat constructor.
  - apply (bool_decide_unpack (NoDup (get_ <$> listeners Sample.main))). vm_compute. exact I.
  - reflexivity.
Defined.

(** *** Looking a descriptor up by address *)

Section ListenSocketFdFacts.
Variable resolveUrl : string -> Exception + Address.
Variable socket_address : ListenSocket -> Address.
Variable socket_fd : ListenSocket -> Z.
Variable walk : gmap ListenerPtr (option ListenSocket) ->
                list (ListenerPtr * option ListenSocket).
Hypothesis walk_all : forall m, walk m ≡ₚ map_to_list m.

Lemma search_fd_socket ptr socket es addr (w : World InstanceImpl Event) :
  search_fd socket_address socket_fd ((ptr, Some socket) :: es) addr w =
  if same_address socket_address socket addr then (Ok (socket_fd socket), w)
  else search_fd socket_address socket_fd es addr w.
Proof.
  simpl. unfold bind, ret. simpl.
  destruct (same_address _ _ _); reflexivity.
Qed.

Lemma search_fd_null ptr es addr (w : World InstanceImpl Event) :
  search_fd socket_address socket_fd ((ptr, None) :: es) addr w =
  (Halt NullDereference, w).
Proof. reflexivity. Qed.

(** What the loop returns, in terms of the entries it was given. *)
Lemma search_fd_spec es addr (w : World InstanceImpl Event) :
  (search_fd socket_address socket_fd es addr w).2 = w /\
  match (search_fd socket_address socket_fd es addr w).1 with
  | Ok fd =>
      (exists ptr socket, (ptr, Some socket) ∈ es /\
         same_address socket_address socket addr = true /\ fd = socket_fd socket) \/
      (fd = -1 /\
       forall ptr o, (ptr, o) ∈ es ->
         exists socket, o = Some socket /\ same_address socket_address socket addr = false)
  | Halt why => why = NullDereference /\ exists ptr, (ptr, None) ∈ es
  end.
Proof.
  induction es as [|[ptr [socket|]] es IH].
  - split; [reflexivity|]. right. split; [reflexivity|].
    intros ptr o Hin. inversion Hin.
  - rewrite search_fd_socket.
    destruct (same_address socket_address socket addr) eqn:Hsame.
    + split; [reflexivity|]. left. exists ptr, socket.
      split; [apply elem_of_cons; left; reflexivity | auto].
    + destruct IH as [IHw IH]. split; [exact IHw|].
      destruct (search_fd socket_address socket_fd es addr w).1 as [fd|why].
      * destruct IH as [(p & k & Hin & Hk & Hfd) | [Hfd Hall]].
        -- left. exists p, k. split; [apply elem_of_cons; right; exact Hin | auto].
        -- right. split; [exact Hfd|]. intros p o Hin.
           apply elem_of_cons in Hin as [[= -> ->] | Hin]; [eauto | eapply Hall, Hin].
      * destruct IH as [Hwhy [p Hin]]. split; [exact Hwhy|].
        exists p. apply elem_of_cons. right. exact Hin.
  - rewrite search_fd_null. split; [reflexivity|]. split; [reflexivity|].
    exists ptr. apply elem_of_cons. left. reflexivity.
Qed.

Lemma elem_of_walk m ptr o : (ptr, o) ∈ walk m <-> m !! ptr = Some o.
Proof. rewrite (walk_all m). apply elem_of_map_to_list. Qed.

Lemma getListenSocketFd_resolved url addr (w : World InstanceImpl Event) :
  resolveUrl url = inr addr ->
  getListenSocketFd resolveUrl socket_address socket_fd walk url w =
  search_fd socket_address socket_fd (walk (socket_map_ (obj w))) addr w.
Proof. intros Hurl. unfold getListenSocketFd. rewrite Hurl. reflexivity. Qed.

Lemma getListenSocketFd_no_socket url addr (w : World InstanceImpl Event) :
  resolveUrl url = inr addr ->
  (forall ptr o, socket_map_ (obj w) !! ptr = Some o ->
     exists socket, o = Some socket /\ same_address socket_address socket addr = false) ->
  getListenSocketFd resolveUrl socket_address socket_fd walk url w = (Ok (-1), w).
Proof.
  intros Hurl Hnone. rewrite (getListenSocketFd_resolved url addr w Hurl).
  pose proof (search_fd_spec (walk (socket_map_ (obj w))) addr w) as [Hw Hspec].
  destruct (search_fd socket_address socket_fd (walk (socket_map_ (obj w))) addr w)
    as [[fd|why] w']. simpl in Hw, Hspec. subst w'.
  - destruct Hspec as [(p & k & Hin & Hk & _) | [-> _]]; [|reflexivity].
    apply elem_of_walk in Hin. destruct (Hnone p _ Hin) as (k' & [= <-] & Hk'). congruence.
  - simpl in Hspec. destruct Hspec as [_ [p Hin]].
    apply elem_of_walk in Hin. destruct (Hnone p _ Hin) as (k & [=] & _).
Qed.

Lemma getListenSocketFd_null_entry url addr (w : World InstanceImpl Event) :
  resolveUrl url = inr addr ->
  (forall ptr socket, socket_map_ (obj w) !! ptr = Some (Some socket) ->
     same_address socket_address socket addr = false) ->
  (exists ptr, socket_map_ (obj w) !! ptr = Some None) ->
  getListenSocketFd resolveUrl socket_address socket_fd walk url w =
  (Halt NullDereference, w).
Proof.
  intros Hurl Hnone [p Hp]. rewrite (getListenSocketFd_resolved url addr w Hurl).
  pose proof (search_fd_spec (walk (socket_map_ (obj w))) addr w) as [Hw Hspec].
  destruct (search_fd socket_address socket_fd (walk (socket_map_ (obj w))) addr w)
    as [[fd|why] w']. simpl in Hw, Hspec. subst w'.
  - exfalso. destruct Hspec as [(p' & k & Hin & Hk & _) | [_ Hall]].
    + apply elem_of_walk in Hin. rewrite (Hnone p' k Hin) in Hk. discriminate.
    + apply elem_of_walk in Hp. destruct (Hall p _ Hp) as (k & [=] & _).
  - simpl in Hw, Hspec. subst w'. destruct Hspec as [-> _]. reflexivity.
Qed.
End ListenSocketFdFacts.

(** [getListenSocketFd], in whatever order the socket map is walked.  It
    never changes the server.  An address that does not resolve ends it with
    the resolver's exception.  Otherwise a descriptor it returns is that of
    a held socket with the same address string, or is -1 when every entry
    holds a socket and none has that address; with every entry non-null it
    returns -1 exactly when no socket has the address; and a null entry
    (which [getListenSocketByIndex] can leave behind) is dereferenced as
    soon as no held socket has the address. *)
Theorem getListenSocketFd_returns_a_matching_descriptor
    (resolveUrl : string -> Exception + Address)
    (socket_address : ListenSocket -> Address) (socket_fd : ListenSocket -> Z)
    (walk : gmap ListenerPtr (option ListenSocket) ->
            list (ListenerPtr * option ListenSocket))
    (url : string) (w : World InstanceImpl Event) :
  (forall m, walk m ≡ₚ map_to_list m) ->
  (getListenSocketFd resolveUrl socket_address socket_fd walk url w).2 = w /\
  (forall e, resolveUrl url = inl e ->
     (getListenSocketFd resolveUrl socket_address socket_fd walk url w).1 =
       Halt (Thrown e)) /\
  (forall addr, resolveUrl url = inr addr ->
     (forall fd,
        (getListenSocketFd resolveUrl socket_address socket_fd walk url w).1 = Ok fd ->
        (exists ptr socket,
           socket_map_ (obj w) !! ptr = Some (Some socket) /\
           same_address socket_address socket addr = true /\ fd = socket_fd socket) \/
        (fd = -1 /\
         forall ptr o, socket_map_ (obj w) !! ptr = Some o ->
           exists socket, o = Some socket /\
                          same_address socket_address socket addr = false)) /\
     ((forall ptr o, socket_map_ (obj w) !! ptr = Some o ->
         exists socket, o = Some socket /\
                        same_address socket_address socket addr = false) ->
      (getListenSocketFd resolveUrl socket_address socket_fd walk url w).1 = Ok (-1)) /\
     ((forall ptr, socket_map_ (obj w) !! ptr ≠ Some None) ->
      (exists ptr socket, socket_map_ (obj w) !! ptr = Some (Some socket) /\
                          same_address socket_address socket addr = true) ->
      exists ptr socket,
        socket_map_ (obj w) !! ptr = Some (Some socket) /\
        same_address socket_address socket addr = true /\
        (getListenSocketFd resolveUrl socket_address socket_fd walk url w).1 =
          Ok (socket_fd socket)) /\
     ((forall ptr socket, socket_map_ (obj w) !! ptr = Some (Some socket) ->
         same_address socket_address socket addr = false) ->
      (exists ptr, socket_map_ (obj w) !! ptr = Some None) ->
      (getListenSocketFd resolveUrl socket_address socket_fd walk url w).1 =
        Halt NullDereference)).
Proof.
  intros Hwalk.
  split; [|split].
  - unfold getListenSocketFd. destruct (resolveUrl url) as [e|addr]; [reflexivity|].
    apply (search_fd_spec socket_address socket_fd).
  - intros e Hurl. unfold getListenSocketFd. rewrite Hurl. reflexivity.
  - intros addr Hurl.
    rewrite (getListenSocketFd_resolved resolveUrl socket_address socket_fd walk url addr w Hurl).
    pose proof (search_fd_spec socket_address socket_fd
                  (walk (socket_map_ (obj w))) addr w) as [_ Hspec].
    destruct (search_fd socket_address socket_fd (walk (socket_map_ (obj w))) addr w).1
      as [fd|why].
    + assert (Hfd :
        (exists ptr socket,
           socket_map_ (obj w) !! ptr = Some (Some socket) /\
           same_address socket_address socket addr = true /\ fd = socket_fd socket) \/
        (fd = -1 /\
         forall ptr o, socket_map_ (obj w) !! ptr = Some o ->
           exists socket, o = Some socket /\
                          same_address socket_address socket addr = false)).
      { destruct Hspec as [(p & k & Hin & Hk & Hfd) | [Hfd Hall]].
        - left. exists p, k. split; [apply (elem_of_walk walk Hwalk), Hin | auto].
        - right. split; [exact Hfd|]. intros p o Ho.
          apply (Hall p o), (elem_of_walk walk Hwalk), Ho. }
      repeat split.
      * intros fd' [= <-]. exact Hfd.
      * intros Hnone. destruct Hfd as [(p & k & Hp & Hk & _) | [-> _]]; [|reflexivity].
        destruct (Hnone p _ Hp) as (k' & [= <-] & Hk'). congruence.
      * intros _ (p & k & Hp & Hk).
        destruct Hfd as [(p' & k' & Hp' & Hk' & ->) | [_ Hall]].
        -- exists p', k'. auto.
        -- destruct (Hall p _ Hp) as (k' & [= <-] & Hk'). congruence.
      * intros Hnone [p Hp]. exfalso.
        destruct Hfd as [(p' & k' & Hp' & Hk' & _) | [_ Hall]].
        -- rewrite (Hnone p' k' Hp') in Hk'. discriminate.
        -- destruct (Hall p _ Hp) as (k' & Hk' & _). discriminate.
    + destruct Hspec as [-> [p Hp]]. apply (elem_of_walk walk Hwalk) in Hp.
      repeat split.
      * intros fd [=].
      * intros Hnone. destruct (Hnone p _ Hp) as (k & [=] & _).
      * intros Hnonnull. destruct (Hnonnull p Hp).
Qed.

Lemma getListenSocketFd_returns_a_matching_descriptor_witness :
  (getListenSocketFd resolve_tcp made_for descriptor by_key
     "tcp://0.0.0.0:80" (Sample.world 2)).2 = Sample.world 2 /\
  (forall e, resolve_tcp "tcp://0.0.0.0:80" = inl e ->
     (getListenSocketFd resolve_tcp made_for descriptor by_key
        "tcp://0.0.0.0:80" (Sample.world 2)).1 = Halt (Thrown e)) /\
  (forall addr, resolve_tcp "tcp://0.0.0.0:80" = inr addr ->
     (forall fd,
        (getListenSocketFd resolve_tcp made_for descriptor by_key
           "tcp://0.0.0.0:80" (Sample.world 2)).1 = Ok fd ->
        (exists ptr socket,
           socket_map_ (obj (Sample.world 2)) !! ptr = Some (Some socket) /\
           same_address made_for socket addr = true /\ fd = descriptor socket) \/
        (fd = -1 /\
         forall ptr o, socket_map_ (obj (Sample.world 2)) !! ptr = Some o ->
           exists socket, o = Some socket /\ same_address made_for socket addr = false)) /\
     ((forall ptr o, socket_map_ (obj (Sample.world 2)) !! ptr = Some o ->
         exists socket, o = Some socket /\ same_address made_for socket addr = false) ->
      (getListenSocketFd resolve_tcp made_for descriptor by_key
         "tcp://0.0.0.0:80" (Sample.world 2)).1 = Ok (-1)) /\
     ((forall ptr, socket_map_ (obj (Sample.world 2)) !! ptr ≠ Some None) ->
      (exists ptr socket, socket_map_ (obj (Sample.world 2)) !! ptr = Some (Some socket) /\
                          same_address made_for socket addr = true) ->
      exists ptr socket,
        socket_map_ (obj (Sample.world 2)) !! ptr = Some (Some socket) /\
        same_address made_for socket addr = true /\
        (getListenSocketFd resolve_tcp made_for descriptor by_key
           "tcp://0.0.0.0:80" (Sample.world 2)).1 = Ok (descriptor socket)) /\
     ((forall ptr socket, socket_map_ (obj (Sample.world 2)) !! ptr = Some (Some socket) ->
         same_address made_for socket addr = false) ->
      (exists ptr, socket_map_ (obj (Sample.world 2)) !! ptr = Some None) ->
      (getListenSocketFd resolve_tcp made_for descriptor by_key
         "tcp://0.0.0.0:80" (Sample.world 2)).1 = Halt NullDereference)).
Proof.
  apply (getListenSocketFd_returns_a_matching_descriptor resolve_tcp made_for descriptor
           by_key "tcp://0.0.0.0:80" (Sample.world 2)).
  intros m. apply merge_sort_Permutation.
Defined.

(** [getListenSocketByIndex] on a listener that has no socket stores a null
    entry, and that entry changes what [getListenSocketFd] does: for an
    address that no socket has, the lookup by address returns -1 before the
    lookup by index and dereferences the null pointer after it. *)
Theorem index_lookup_leaves_null_entry_for_fd_lookup
    (resolveUrl : string -> Exception + Address)
    (socket_address : ListenSocket -> Address) (socket_fd : ListenSocket -> Z)
    (walk : gmap ListenerPtr (option ListenSocket) ->
            list (ListenerPtr * option ListenSocket))
    (url : string) (addr : Address) (w : World InstanceImpl Event)
    (config : MainConfig) (i : nat) (l : Listener) :
  (forall m, walk m ≡ₚ map_to_list m) ->
  resolveUrl url = inr addr ->
  config_ (obj w) = Some config ->
  listeners config !! i = Some l ->
  socket_map_ (obj w) !! get_ l = None ->
  (forall ptr o, socket_map_ (obj w) !! ptr = Some o ->
     exists socket, o = Some socket /\ same_address socket_address socket addr = false) ->
  getListenSocketFd resolveUrl socket_address socket_fd walk url w = (Ok (-1), w) /\
  (getListenSocketByIndex (N.of_nat i) >>
   getListenSocketFd resolveUrl socket_address socket_fd walk url) w =
  (Halt NullDereference,
   mkWorld (set_socket_map (<[get_ l := None]> (socket_map_ (obj w))) (obj w)) (out w)).
Proof.
  intros Hwalk Hurl Hconfig Hl Hfree Hnone.
  split; [apply (getListenSocketFd_no_socket _ _ _ _ Hwalk url addr w Hurl Hnone)|].
  assert (Hlt : (i < length (listeners config))%nat) by (eapply lookup_lt_Some; exact Hl).
  assert (Hindex : getListenSocketByIndex (N.of_nat i) w =
            (Ok None, mkWorld (set_socket_map (<[get_ l := None]> (socket_map_ (obj w)))
                                 (obj w)) (out w))).
  { unfold getListenSocketByIndex. step. rewrite Hconfig. step.
    replace (N.of_nat i <? N.of_nat (length (listeners config)))%N with true
      by (symmetry; apply N.ltb_lt; lia).
    rewrite Nat2N.id, Hl, Hfree. destruct w as [s tr]. reflexivity. }
  erewrite bind_run by exact Hindex.
  apply (getListenSocketFd_null_entry _ _ _ _ Hwalk url addr _ Hurl).
  - destruct w as [[t0 st ws sm cf sk tm] tr]. cbn [obj socket_map_ set_socket_map] in *.
    intros ptr socket Hptr.
    destruct (decide (ptr = get_ l)) as [->|Hne].
    + rewrite lookup_insert_eq in Hptr. discriminate.
    + rewrite lookup_insert_ne in Hptr by congruence.
      destruct (Hnone ptr _ Hptr) as (k & [= <-] & Hk). exact Hk.
  - exists (get_ l). destruct w as [[t0 st ws sm cf sk tm] tr].
    cbn [obj socket_map_ set_socket_map]. apply lookup_insert_eq.
Qed.

Lemma index_lookup_leaves_null_entry_for_fd_lookup_witness :
  getListenSocketFd resolve_tcp made_for descriptor by_key "tcp://0.0.0.0:80"
    (mkWorld (set_config (Some Sample.main) (fresh_instance (Sample.env 2))) []) =
  (Ok (-1), mkWorld (set_config (Some Sample.main) (fresh_instance (Sample.env 2))) []) /\
  (getListenSocketByIndex (N.of_nat 1) >>
   getListenSocketFd resolve_tcp made_for descriptor by_key "tcp://0.0.0.0:80")
    (mkWorld (set_config (Some Sample.main) (fresh_instance (Sample.env 2))) []) =
  (Halt NullDereference,
   mkWorld (set_socket_map (<[get_ Sample.https := None]> ∅)
              (set_config (Some Sample.main) (fresh_instance (Sample.env 2)))) []).
Proof.
  apply (index_lookup_leaves_null_entry_for_fd_lookup resolve_tcp made_for descriptor
           by_key "tcp://0.0.0.0:80" (mkAddress Ip "0.0.0.0:80")
           (mkWorld (set_config (Some Sample.main) (fresh_instance (Sample.env 2))) [])
           Sample.main 1 Sample.https).
  - intros m. apply merge_sort_Permutation.
  - reflexivity.
  - reflexivity.
  - reflexivity.
  - reflexivity.
  - intros ptr o H. simpl in H. rewrite lookup_empty in H. discriminate.
Defined.
End ServerMoreFacts.
